(** * Surge XT command-line player and OSC dispatcher

    A shallow embedding of
    - [src/surge-xt/cli/cli-main.cpp]: the MIDI ring buffer of [SurgePlayback]
      and its audio device callback;
    - [src/surge-xt/osc/OpenSoundControl.cpp]: the OSC address dispatcher
      [oscMessageReceived], [getWholeString] and [sendAllParams];
    followed by the properties proved about them. *)

From Stdlib Require Import ZArith Lia Ascii String.
From stdpp Require Import base list strings pretty.

Local Open Scope Z_scope.

(** ** Results of running a piece of C++ *)

(** [Done a]: the code ran to its end.  [OutOfBounds]: it indexed an array or
    an argument list outside its range (undefined behaviour in C++).
    [Thrown]: a C++ exception left the function.  [OutOfFuel]: the model of a
    [while] loop ran out of iterations. *)
Inductive outcome (A : Type) : Type :=
| Done (a : A)
| OutOfBounds
| Thrown (what : string)
| OutOfFuel.
Arguments Done {A} a.
Arguments OutOfBounds {A}.
Arguments Thrown {A} what.
Arguments OutOfFuel {A}.

Definition bind {A B : Type} (x : outcome A) (f : A -> outcome B) : outcome B :=
  match x with
  | Done a => f a
  | OutOfBounds => OutOfBounds
  | Thrown w => Thrown w
  | OutOfFuel => OutOfFuel
  end.

Notation "'do' x <- e ; k" := (bind e (fun x => k))
  (at level 10, x name, e at level 100, k at level 200).

(** ** The C++ type [int] *)

Module Int32.

(** Two's complement wrap-around of a mathematical integer to 32 bits. *)
Definition wrap (z : Z) : Z := (z + 2147483648) mod 4294967296 - 2147483648.

Definition max_int : Z := 2147483647.
Definition min_int : Z := -2147483648.

Definition add (a b : Z) : Z := wrap (a + b).

End Int32.

(** ** cli-main.cpp: [struct SurgePlayback] *)

Module Playback.

Definition midiBufferSz : Z := 4096.
Definition midiBufferSzMask : Z := midiBufferSz - 1.

Section SurgePlayback.

(** [juce::MidiMessage], an opaque copyable value. *)
Context {MidiMessage : Type}.

(** [BLOCK_SIZE] comes from a header that is not part of these sources. *)
Variable BLOCK_SIZE : Z.

(** The calls the playback object makes on its collaborators, in order.
    [WriteFrame i p] stands for the two assignments
    [outputChannelData[c][i] = proc->surge->output[c][p]]. *)
Inductive Call : Type :=
| ProcessBlockOSC
| ApplyMidi (m : MidiMessage)
| Process
| WriteFrame (i p : Z).

Record State : Type := mkState {
  midiBuffer : list MidiMessage;
  midiWP : Z;
  midiRP : Z;
  pos : Z;
  calls : list Call
}.

(** [proc->f(...)]: the call is appended to the log. *)
Definition call (c : Call) (st : State) : State :=
  mkState (midiBuffer st) (midiWP st) (midiRP st) (pos st) (calls st ++ [c]).

Definition set_midiWP (v : Z) (st : State) : State :=
  mkState (midiBuffer st) v (midiRP st) (pos st) (calls st).

Definition set_midiRP (v : Z) (st : State) : State :=
  mkState (midiBuffer st) (midiWP st) v (pos st) (calls st).

Definition set_pos (v : Z) (st : State) : State :=
  mkState (midiBuffer st) (midiWP st) (midiRP st) v (calls st).

Definition in_range (i : Z) (st : State) : bool :=
  (0 <=? i) && (i <? Z.of_nat (length (midiBuffer st))).

(** [midiBuffer[i]] as an rvalue. *)
Definition read_slot (i : Z) (st : State) : outcome MidiMessage :=
  if in_range i st then
    match midiBuffer st !! Z.to_nat i with
    | Some m => Done m
    | None => OutOfBounds
    end
  else OutOfBounds.

(** [midiBuffer[i] = m]. *)
Definition write_slot (i : Z) (m : MidiMessage) (st : State) : outcome State :=
  if in_range i st then
    Done (mkState (<[Z.to_nat i := m]> (midiBuffer st))
                  (midiWP st) (midiRP st) (pos st) (calls st))
  else OutOfBounds.

(** [(c + 1) & midiBufferSzMask] on [int]. *)
Definition next_cursor (c : Z) : Z :=
  Z.land (Int32.add c 1) midiBufferSzMask.

Definition handleIncomingMidiMessage (message : MidiMessage) (st : State)
  : outcome State :=
  do st1 <- write_slot (midiWP st) message st;
  Done (set_midiWP (next_cursor (midiWP st1)) st1).

(** The body of the [while] loop:
    [applyMidi(midiBuffer[midiRP]); midiRP = (midiRP + 1) & mask;] *)
Definition drain_step (st : State) : outcome State :=
  do m <- read_slot (midiRP st) st;
  Done (set_midiRP (next_cursor (midiRP st)) (call (ApplyMidi m) st)).

(** [while (mw != midiRP) { ... }] *)
Fixpoint drain_loop (fuel : nat) (mw : Z) (st : State) : outcome State :=
  if mw =? midiRP st then Done st
  else
    match fuel with
    | O => OutOfFuel
    | S fuel' => do st1 <- drain_step st; drain_loop fuel' mw st1
    end.

(** [int mw = midiWP;] followed by the loop. *)
Definition drain (fuel : nat) (st : State) : outcome State :=
  drain_loop fuel (midiWP st) st.

(** The body of [if (pos >= BLOCK_SIZE)]. *)
Definition block_boundary (fuel : nat) (st : State) : outcome State :=
  do st1 <- drain fuel st;
  Done (set_pos 0 (call Process st1)).

(** One iteration of the [for] loop, for loop index [i]. *)
Definition frame (fuel : nat) (i : Z) (st : State) : outcome State :=
  do st1 <- (if BLOCK_SIZE <=? pos st then block_boundary fuel st else Done st);
  Done (set_pos (Int32.add (pos st1) 1) (call (WriteFrame i (pos st1)) st1)).

(** [for (int i = ...; i < numSamples; ++i)], [n] iterations left. *)
Fixpoint frames (fuel : nat) (n : nat) (i : Z) (st : State) : outcome State :=
  match n with
  | O => Done st
  | S n' => do st1 <- frame fuel i st; frames fuel n' (i + 1) st1
  end.

Definition audioDeviceIOCallbackWithContext
    (fuel : nat) (numSamples : Z) (st : State) : outcome State :=
  frames fuel (Z.to_nat numSamples) 0 (call ProcessBlockOSC st).

(** The producer called once per element of [ms], in order. *)
Fixpoint push_all (ms : list MidiMessage) (st : State) : outcome State :=
  match ms with
  | [] => Done st
  | m :: ms' => do st1 <- handleIncomingMidiMessage m st; push_all ms' st1
  end.

(** The object as constructed: every slot holds the default message
    [empty], both cursors are zero and [pos = BLOCK_SIZE]. *)
Definition init (empty : MidiMessage) : State :=
  mkState (replicate (Z.to_nat midiBufferSz) empty) 0 0 BLOCK_SIZE [].

(** *** Specification vocabulary for the ring and the callback *)

(** The messages handed to [applyMidi] in a call log. *)
Definition applied (cs : list Call) : list MidiMessage :=
  omap (fun c => match c with ApplyMidi m => Some m | _ => None end) cs.

(** The ring invariant: 4096 slots, both cursors index a slot. *)
Definition ring_inv (st : State) : Prop :=
  Z.of_nat (length (midiBuffer st)) = midiBufferSz /\
  0 <= midiWP st < midiBufferSz /\
  0 <= midiRP st < midiBufferSz.

(** The states the object can be in: as constructed, and after any
    sequence of producer calls, iterations of the drain loop and whole
    audio callbacks. *)
Inductive reachable (empty : MidiMessage) : State -> Prop :=
| reach_init : reachable empty (init empty)
| reach_push st m st' :
    reachable empty st -> handleIncomingMidiMessage m st = Done st' ->
    reachable empty st'
| reach_drain_step st st' :
    reachable empty st -> drain_step st = Done st' -> reachable empty st'
| reach_callback st fuel numSamples st' :
    reachable empty st ->
    audioDeviceIOCallbackWithContext fuel numSamples st = Done st' ->
    reachable empty st'.

(** [ms] pushed on the object as constructed, then one drain pass: the
    messages handed to [applyMidi]. *)
Definition drained_after_pushes (empty : MidiMessage) (ms : list MidiMessage)
  : outcome (list MidiMessage) :=
  do st1 <- push_all ms (init empty);
  do st2 <- drain (Z.to_nat midiBufferSz) st1;
  Done (applied (calls st2)).

(** The drain pass applies the newest [min N 4096] of the [N] messages
    pushed, in push order; the oldest [N - 4096] are dropped. *)
Definition drain_applies_newest_min (empty : MidiMessage) (ms : list MidiMessage)
  : Prop :=
  drained_after_pushes empty ms =
    Done (drop (length ms - Nat.min (length ms) (Z.to_nat midiBufferSz)) ms).

Definition calls_of (r : outcome State) : list Call :=
  match r with
  | Done st => calls st
  | _ => []
  end.

(** The last [N mod 4096] of [N] messages. *)
Definition newest_mod_capacity (ms : list MidiMessage) : list MidiMessage :=
  drop (length ms - length ms mod 4096)%nat ms.

(** The slot [j] places after the read cursor, cyclically. *)
Definition slot_after (st : State) (j : nat) : option MidiMessage :=
  midiBuffer st !! Z.to_nat ((midiRP st + Z.of_nat j) mod midiBufferSz).

(** The messages between the read and the write cursor, oldest first. *)
Definition pending (st : State) : list MidiMessage :=
  omap (slot_after st)
       (seq 0 (Z.to_nat ((midiWP st - midiRP st) mod midiBufferSz))).

Definition starts_with_apply_or_process (cs : list Call) : bool :=
  match cs with
  | ApplyMidi _ :: _ | Process :: _ => true
  | _ => false
  end.

Definition starts_with_frame_zero (cs : list Call) : bool :=
  match cs with
  | WriteFrame _ p :: _ => p =? 0
  | _ => false
  end.

(** A monitor over a call log.  [c] is the number of frames written since
    the last synthesis step.  It accepts a log when
    - [applyMidi] is called only once a whole block has been written
      ([c] has reached [BLOCK_SIZE]) and is followed by further
      [applyMidi] calls and then by [process];
    - [process] is called only at such a point, and is followed by the
      frame read at counter zero;
    - every frame is read at the counter value [c], strictly inside the
      block. *)
Fixpoint block_aligned (c : Z) (cs : list Call) : bool :=
  match cs with
  | [] => true
  | ProcessBlockOSC :: cs' => block_aligned c cs'
  | ApplyMidi _ :: cs' =>
      (BLOCK_SIZE <=? c) && starts_with_apply_or_process cs'
      && block_aligned c cs'
  | Process :: cs' =>
      (BLOCK_SIZE <=? c) && starts_with_frame_zero cs' && block_aligned 0 cs'
  | WriteFrame _ p :: cs' =>
      (p =? c) && (c <? BLOCK_SIZE) && block_aligned (c + 1) cs'
  end.

(** The reading of "the poll runs before every synthesis step": between
    two [process] calls, and before the first one, there is a
    [processBlockOSC] call.  [polled] tells whether a poll happened since
    the last synthesis step. *)
Fixpoint poll_before_each_process (polled : bool) (cs : list Call) : bool :=
  match cs with
  | [] => true
  | ProcessBlockOSC :: cs' => poll_before_each_process true cs'
  | Process :: cs' => polled && poll_before_each_process false cs'
  | _ :: cs' => poll_before_each_process polled cs'
  end.

Definition is_poll (c : Call) : bool :=
  match c with ProcessBlockOSC => true | _ => false end.

Definition is_process (c : Call) : bool :=
  match c with Process => true | _ => false end.

Definition count_calls (f : Call -> bool) (cs : list Call) : nat :=
  length (List.filter f cs).

(** The poll precedes every synthesis step of a callback run on [st]. *)
Definition poll_precedes_every_block
    (fuel : nat) (numSamples : Z) (st : State) : Prop :=
  poll_before_each_process false
    (calls_of (audioDeviceIOCallbackWithContext fuel numSamples st)) = true.

End SurgePlayback.

(** A ring of note numbers on which three notes were pushed and none
    drained, at the end of a block of 32 frames. *)
Definition three_pending : @State nat :=
  mkState ([60; 64; 67] ++ replicate 4093 0)%nat 3 0 32 [].

End Playback.

(** ** OpenSoundControl.cpp: [class OpenSoundControl] *)

Module OSC.

Definition NUL : ascii := "000"%char.

(** [s.at(i)] of [std::string]. *)
Definition string_at (s : string) (i : nat) : outcome ascii :=
  match String.get i s with
  | Some c => Done c
  | None => Thrown "std::out_of_range"
  end.

(** [std::istringstream]: [Some s] is a good stream with [s] still unread,
    [None] a stream whose eofbit or failbit is set. *)
Definition istringstream : Type := option string.

(** The characters before the first [delim] and those after it. *)
Fixpoint up_to_delim (delim : ascii) (s : string) : option (string * string) :=
  match s with
  | EmptyString => None
  | String c s' =>
      if Ascii.eqb c delim then Some (EmptyString, s')
      else match up_to_delim delim s' with
           | Some (tok, rest) => Some (String c tok, rest)
           | None => None
           end
  end.

(** [std::getline(split, str, delim)]: returns the new value of [str] and
    the stream.  On a stream that is not good [str] keeps its value;
    otherwise [str] is erased and filled up to the delimiter, which is
    consumed, or up to the end of the stream, which sets eofbit. *)
Definition getline (split : istringstream) (str : string) (delim : ascii)
  : string * istringstream :=
  match split with
  | None => (str, None)
  | Some s =>
      match up_to_delim delim s with
      | Some (tok, rest) => (tok, Some rest)
      | None => (s, None)
      end
  end.

(** The address token path of the specification: [s] cut at every
    [delim].  An address that begins with the separator has an empty first
    segment. *)
Fixpoint split_on (delim : ascii) (s : string) : list string :=
  match s with
  | EmptyString => [EmptyString]
  | String c s' =>
      if Ascii.eqb c delim then EmptyString :: split_on delim s'
      else match split_on delim s' with
           | tok :: toks => String c tok :: toks
           | [] => [String c EmptyString]
           end
  end.

(** The segments a stream still holds. *)
Definition stream_tokens (delim : ascii) (split : istringstream) : list string :=
  match split with
  | Some s => split_on delim s
  | None => []
  end.

(** [dataStr.c_str()] as [strncpy] reads it: the characters before the
    first NUL. *)
Fixpoint c_str (s : string) : list ascii :=
  match s with
  | EmptyString => []
  | String c s' => if Ascii.eqb c NUL then [] else c :: c_str s'
  end.

(** [strncpy(dst, src, n)]: exactly [n] characters of [dst] are written,
    those of [src] followed by NUL padding; no terminator is written when
    [src] has [n] or more characters. *)
Definition strncpy (dst src : list ascii) (n : nat) : outcome (list ascii) :=
  if (n <=? length dst)%nat
  then Done (take n src ++ replicate (n - length src) NUL ++ drop n dst)
  else OutOfBounds.

(** A [char] array read as a C string. *)
Fixpoint c_string_of (arr : list ascii) : string :=
  match arr with
  | [] => EmptyString
  | c :: arr' => if Ascii.eqb c NUL then EmptyString else String c (c_string_of arr')
  end.

(** No character of [s] is NUL, as for every string that came through a
    C string. *)
Fixpoint nul_free (s : string) : bool :=
  match s with
  | EmptyString => true
  | String c s' => negb (Ascii.eqb c NUL) && nul_free s'
  end.

(** [std::to_string(int)]. *)
Definition to_string_int (z : Z) : string := pretty z.

(** [std::to_string(bool)]: the argument is promoted to [int]. *)
Definition to_string_bool (b : bool) : string := to_string_int (if b then 1 else 0).

(** The arguments joined with single spaces, as the specification words
    it. *)
Definition joined_with_spaces (ss : list string) : string :=
  String.concat " " ss.

Inductive DefaultKey : Type := LastSCLPath | LastKBMPath.

Definition DefaultKey_eqb (a b : DefaultKey) : bool :=
  match a, b with
  | LastSCLPath, LastSCLPath | LastKBMPath, LastKBMPath => true
  | _, _ => false
  end.

Inductive valtypes : Type := vt_int | vt_bool | vt_float | vt_other.

Section Dispatcher.

(** [float] values and [Parameter *] handles are opaque. *)
Context {Float32 ParamRef : Type}.

(** [juce::OSCArgument]. *)
Inductive OSCArgument : Type :=
| ArgInt32 (i : Z)
| ArgFloat32 (f : Float32)
| ArgString (s : string)
| ArgBlob (bytes : list Z)
| ArgColour (rgba : Z).

(** [juce::OSCMessage]. *)
Record OSCMessage : Type := mkMessage {
  addressPattern : string;
  arguments : list OSCArgument
}.

Definition size (om : OSCMessage) : Z := Z.of_nat (length (arguments om)).

(** [om[i]]: JUCE does not check the index in a release build. *)
Definition arg_at (om : OSCMessage) (i : Z) : outcome OSCArgument :=
  if (0 <=? i) && (i <? size om) then
    match arguments om !! Z.to_nat i with
    | Some a => Done a
    | None => OutOfBounds
    end
  else OutOfBounds.

(** [getString()] of an argument that is not a string is the empty
    string. *)
Definition getString (a : OSCArgument) : string :=
  match a with ArgString s => s | _ => EmptyString end.

(** The union [pdata] through its three views. *)
Record pdata : Type := mkPdata { val_i : Z; val_b : bool; val_f : Float32 }.

(** [class Parameter]; the name is reserved here. *)
Record Param : Type := mkParam {
  valtype : valtypes;
  val : pdata;
  oscName : string
}.

(** The bodies handed to [callAsync]. *)
Inductive Task : Type :=
| SavePatchTask (message : OSCMessage)
| SendTask (addr msg : string)
| SendAllParamsTask.

(** Calls on collaborators whose code is elsewhere, in the order made. *)
Inductive Effect : Type :=
| LockPatchLoadSpawnMutex
| UnlockPatchLoadSpawnMutex
| StorePatchidFile (chars : list ascii)
| StoreHasPatchidFile (b : bool)
| ProcessAudioThreadOpsWhenAudioEngineUnavailable
| OscRingBufPush (p : ParamRef) (v : Float32)
| CallAsync (t : Task)
| SelectRandomPatch
| JogPatch (increment : bool)
| JogCategory (increment : bool)
| ReportError (msg title : string)
| LoadTuningFromSCL (path : string)
| LoadMappingFromKBM (path : string)
| SavePatch (a b : bool)
| SavePatchToPath (path : string)
| SenderSend (addr value : string)
| Cout (text : string).

Record Synth : Type := mkSynth {
  patchid_file : list ascii;
  has_patchid_file : bool;
  sendingOSC : bool;
  param_ptr : list Param;
  userDefaultPath : DefaultKey -> option string;
  effects : list Effect
}.

(** What these sources use and do not define.  [fs_exists p] is the answer
    of the file system to the status query behind [fs::exists(p)]: the file
    is there or not, or [None] when the query itself fails (a name that is
    too long, a directory that may not be searched). *)
Variable FILENAME_MAX : nat.
Variable parameterFromOSCName : string -> option ParamRef.
Variable fs_exists : string -> option bool.
Variable is_relative : string -> bool.
Variable path_div : string -> string -> string.
Variable datapath : string.
Variable to_string_float : Float32 -> string.
Variable sender_send : string -> string -> bool.

Definition effect (e : Effect) (w : Synth) : Synth :=
  mkSynth (patchid_file w) (has_patchid_file w) (sendingOSC w) (param_ptr w)
          (userDefaultPath w) (effects w ++ [e]).

Definition set_patchid_file (chars : list ascii) (w : Synth) : Synth :=
  mkSynth chars (has_patchid_file w) (sendingOSC w) (param_ptr w)
          (userDefaultPath w) (effects w ++ [StorePatchidFile chars]).

Definition set_has_patchid_file (b : bool) (w : Synth) : Synth :=
  mkSynth (patchid_file w) b (sendingOSC w) (param_ptr w)
          (userDefaultPath w) (effects w ++ [StoreHasPatchidFile b]).

(** Modelled from the spec: [Surge::Storage::updateUserDefaultPath], the
    setter of the persisted per-user default path kept under a fixed
    key. *)
Definition updateUserDefaultPath (key : DefaultKey) (p : string) (w : Synth)
  : Synth :=
  mkSynth (patchid_file w) (has_patchid_file w) (sendingOSC w) (param_ptr w)
          (fun k => if DefaultKey_eqb k key then Some p else userDefaultPath w k)
          (effects w).

(** Modelled from the spec: [Surge::Storage::getUserDefaultPath], the
    getter of the same setting, with the value used when none is
    stored. *)
Definition getUserDefaultPath (w : Synth) (key : DefaultKey) (default : string)
  : string :=
  match userDefaultPath w key with
  | Some p => p
  | None => default
  end.

(** The loop of [getWholeString], [n] iterations left, at index [i]. *)
Fixpoint getWholeString_loop (n : nat) (i : Z) (om : OSCMessage) (dataStr : string)
  : outcome string :=
  match n with
  | O => Done dataStr
  | S n' =>
      do a <- arg_at om i;
      let dataStr1 := dataStr +:+ getString a in
      let dataStr2 := if i <? size om - 1 then dataStr1 +:+ " " else dataStr1 in
      getWholeString_loop n' (i + 1) om dataStr2
  end.

Definition getWholeString (om : OSCMessage) : outcome string :=
  getWholeString_loop (Z.to_nat (size om)) 0 om EmptyString.

(** [juceOSCSender.send(...)] and the report of its failure. *)
Definition sender_transmit (addr value : string) (w : Synth) : Synth :=
  let w1 := effect (SenderSend addr value) w in
  if sender_send addr value then w1
  else effect (Cout "Error: could not send OSC message.") w1.

(** [*synth->storage.getPatch().param_ptr[i]]. *)
Definition param_at (w : Synth) (i : Z) : outcome Param :=
  if (0 <=? i) && (i <? Z.of_nat (length (param_ptr w))) then
    match param_ptr w !! Z.to_nat i with
    | Some p => Done p
    | None => OutOfBounds
    end
  else OutOfBounds.

(** The [switch] on [p.valtype]; [default] leaves [valStr] as it is. *)
Definition format_value (p : Param) (valStr : string) : string :=
  match valtype p with
  | vt_int => to_string_int (val_i (val p))
  | vt_bool => to_string_bool (val_b (val p))
  | vt_float => to_string_float (val_f (val p))
  | vt_other => valStr
  end.

(** The loop of the [sendAllParams] lambda. *)
Fixpoint sendAllParams_loop (n : nat) (i : Z) (valStr : string) (w : Synth)
  : outcome Synth :=
  match n with
  | O => Done w
  | S n' =>
      do p <- param_at w i;
      let valStr1 := format_value p valStr in
      sendAllParams_loop n' (i + 1) valStr1 (sender_transmit (oscName p) valStr1 w)
  end.

(** Running a body handed to [callAsync], later, on the message thread. *)
Definition run_task (t : Task) (w : Synth) : outcome Synth :=
  match t with
  | SavePatchTask message =>
      do dataStr <- getWholeString message;
      if String.eqb dataStr EmptyString
      then Done (effect (SavePatch false true) w)
      else Done (effect (SavePatchToPath (dataStr +:+ ".fxp")) w)
  | SendTask addr msg => Done (sender_transmit addr msg w)
  | SendAllParamsTask =>
      sendAllParams_loop (length (param_ptr w)) 0 EmptyString w
  end.

Definition send (addr msg : string) (w : Synth) : Synth :=
  if sendingOSC w then effect (CallAsync (SendTask addr msg)) w else w.

Definition sendAllParams (w : Synth) : Synth :=
  if sendingOSC w then effect (CallAsync SendAllParamsTask) w else w.

Definition slash : ascii := "/"%char.

(** The [address2] branch of [address1 == "patch"]. *)
Definition patch_branch (message : OSCMessage) (address2 : string) (w : Synth)
  : outcome Synth :=
  if String.eqb address2 "load" then
    do whole <- getWholeString message;
    let dataStr := whole +:+ ".fxp" in
    let w1 := effect LockPatchLoadSpawnMutex w in
    do arr <- strncpy (patchid_file w1) (c_str dataStr) FILENAME_MAX;
    let w2 := set_patchid_file arr w1 in
    let w3 := set_has_patchid_file true w2 in
    let w4 := effect UnlockPatchLoadSpawnMutex w3 in
    Done (effect ProcessAudioThreadOpsWhenAudioEngineUnavailable w4)
  else if String.eqb address2 "save" then
    Done (effect (CallAsync (SavePatchTask message)) w)
  else if String.eqb address2 "random" then Done (effect SelectRandomPatch w)
  else if String.eqb address2 "incr" then Done (effect (JogPatch true) w)
  else if String.eqb address2 "decr" then Done (effect (JogPatch false) w)
  else if String.eqb address2 "incr_category" then Done (effect (JogCategory true) w)
  else if String.eqb address2 "decr_category" then Done (effect (JogCategory false) w)
  else Done w.

(** [fs::exists(p)] as line 205 calls it, the overload without an error
    code: it throws [fs::filesystem_error] when the status of [p] cannot be
    obtained. *)
Definition fs_exists_or_throw (p : string) : outcome bool :=
  match fs_exists p with
  | Some found => Done found
  | None => Thrown "fs::filesystem_error"
  end.

(** The test [(dataStr != "_reset") && (!fs::exists(dataStr))]: the file
    system is asked only when the string is not the reset word. *)
Definition path_is_missing (dataStr : string) : outcome bool :=
  if negb (String.eqb dataStr "_reset") then
    do found <- fs_exists_or_throw dataStr; Done (negb found)
  else Done false.

(** The [address2] branch of [address1 == "tuning"]; [split] is the
    stream after [address2] was read.  Nothing in the handler catches the
    exception of [fs::exists]. *)
Definition tuning_branch (message : OSCMessage) (address2 : string)
    (split : istringstream) (w : Synth) (path : string) : outcome Synth :=
  if String.eqb address2 "path" then
    do dataStr <- getWholeString message;
    do missing <- path_is_missing dataStr;
    if missing then
      Done (effect
              (ReportError
                 ("An OSC 'tuning/path/...' message was received with a path which "
                  +:+ "does not exist: the default path will not change.")
                 "Path does not exist.") w)
    else
      let ppath := dataStr in
      let '(address3, _) := getline split EmptyString slash in
      if String.eqb address3 "scl" then
        let ppath :=
          if String.eqb dataStr "_reset"
          then path_div datapath "tuning_library/SCL" else ppath in
        Done (updateUserDefaultPath LastSCLPath ppath w)
      else if String.eqb address3 "kbm" then
        let ppath :=
          if String.eqb dataStr "_reset"
          then path_div datapath "tuning_library/KBM Concert Pitch" else ppath in
        Done (updateUserDefaultPath LastKBMPath ppath w)
      else Done w
  else if String.eqb address2 "scl" then
    let def_path :=
      if is_relative path then
        path_div
          (getUserDefaultPath w LastSCLPath
             (path_div (path_div datapath "tuning_library") "SCL"))
          path +:+ ".scl"
      else path +:+ ".scl" in
    Done (effect (LoadTuningFromSCL def_path) w)
  else if String.eqb address2 "kbm" then
    let def_path :=
      if is_relative path then
        path_div
          (getUserDefaultPath w LastKBMPath
             (path_div (path_div datapath "tuning_library") "KBM Concert Pitch"))
          path +:+ ".kbm"
      else path +:+ ".kbm" in
    Done (effect (LoadMappingFromKBM def_path) w)
  else Done w.

(** The body of [address1 == "param"].  The [match] stands for the test
    [message[0].isFloat32()] and the read [message[0].getFloat32()]. *)
Definition param_branch (message : OSCMessage) (addr : string) (w : Synth)
  : outcome Synth :=
  match parameterFromOSCName addr with
  | None => Done w
  | Some p =>
      do a0 <- arg_at message 0;
      match a0 with
      | ArgFloat32 v => Done (effect (OscRingBufPush p v) w)
      | _ => Done w
      end
  end.

(** The chain of comparisons on [address1]; [split] is the stream after
    [address1] was read. *)
Definition dispatch (message : OSCMessage) (addr address1 : string)
    (split : istringstream) (w : Synth) : outcome Synth :=
  if String.eqb address1 "param" then param_branch message addr w
  else if String.eqb address1 "patch" then
    let '(address2, split) := getline split EmptyString slash in
    patch_branch message address2 w
  else if String.eqb address1 "tuning" then
    do path <- getWholeString message;
    let '(address2, split) := getline split EmptyString slash in
    tuning_branch message address2 split w path
  else if String.eqb address1 "send_all_parameters" then
    Done (sendAllParams w)
  else Done w.

Definition oscMessageReceived (message : OSCMessage) (w : Synth) : outcome Synth :=
  let addr := addressPattern message in
  do c0 <- string_at addr 0;
  if negb (Ascii.eqb c0 slash) then Done w
  else
    let split : istringstream := Some addr in
    let '(throwaway, split) := getline split EmptyString slash in
    let '(address1, split) := getline split EmptyString slash in
    dispatch message addr address1 split w.

(** *** Specification vocabulary for the dispatcher *)

(** The string values of the arguments of [message] joined with single
    spaces. *)
Definition joined_arguments (message : OSCMessage) : string :=
  joined_with_spaces (map getString (arguments message)).

(** The pending patch-load request a run leaves: the path in
    [patchid_file] when [has_patchid_file] is set. *)
Definition pending_request_of (r : outcome Synth) : option string :=
  match r with
  | Done w => if has_patchid_file w then Some (c_string_of (patchid_file w)) else None
  | _ => None
  end.

(** The request left by a patch/load message is the joined arguments
    followed by the extension. *)
Definition pending_path_is_joined_arguments (message : OSCMessage) (w : Synth)
  : Prop :=
  pending_request_of (oscMessageReceived message w) =
    Some (joined_arguments message +:+ ".fxp").

(** The save a patch/save message leads to is chosen by whether the
    message has arguments. *)
Definition save_chosen_by_argument_count (message : OSCMessage) (w : Synth)
  : Prop :=
  run_task (SavePatchTask message) w =
    Done (effect
            match arguments message with
            | [] => SavePatch false true
            | _ => SavePatchToPath (joined_arguments message +:+ ".fxp")
            end w).


(** The address and value of every parameter of [ps] in turn, [valStr]
    being the value string left by the previous one. *)
Fixpoint formatted (valStr : string) (ps : list Param) : list (string * string) :=
  match ps with
  | [] => []
  | p :: ps' =>
      let v := format_value p valStr in (oscName p, v) :: formatted v ps'
  end.

(** The entries pushed on [oscRingBuf] in an effect log. *)
Definition queue_entries (es : list Effect) : list (ParamRef * Float32) :=
  omap (fun e => match e with OscRingBufPush p v => Some (p, v) | _ => None end) es.

(** The messages handed to the OSC sender in an effect log. *)
Definition sent (es : list Effect) : list (string * string) :=
  omap (fun e => match e with SenderSend a v => Some (a, v) | _ => None end) es.

(** A monitor: the two fields of the pending patch-load request are
    stored only while [patchLoadSpawnMutex] is held, and the mutex is
    released at the end. *)
Fixpoint stores_under_mutex (held : bool) (es : list Effect) : bool :=
  match es with
  | [] => negb held
  | LockPatchLoadSpawnMutex :: es' => negb held && stores_under_mutex true es'
  | UnlockPatchLoadSpawnMutex :: es' => held && stores_under_mutex false es'
  | StorePatchidFile _ :: es' | StoreHasPatchidFile _ :: es' =>
      held && stores_under_mutex held es'
  | _ :: es' => stores_under_mutex held es'
  end.

End Dispatcher.

(** *** A concrete patch, for running the dispatcher

    Floats are stood for by integers and parameter handles by indices;
    [FILENAME_MAX] is 4096 as in glibc; no file exists and every send
    succeeds. *)

Definition sample_params : list (@Param Z) :=
  [ mkParam vt_int (mkPdata 3 false 0) "/param/a/osc/1/octave";
    mkParam vt_bool (mkPdata 0 true 0) "/param/a/osc/1/retrigger";
    mkParam vt_float (mkPdata 0 false 500) "/param/a/filter/1/cutoff" ].

Definition sample_table (addr : string) : option nat :=
  if String.eqb addr "/param/a/osc/1/octave" then Some 0%nat
  else if String.eqb addr "/param/a/osc/1/retrigger" then Some 1%nat
  else if String.eqb addr "/param/a/filter/1/cutoff" then Some 2%nat
  else None.

Definition sample_synth : @Synth Z nat :=
  mkSynth (replicate 4096 NUL) false true sample_params (fun _ => None) [].

Definition no_file (p : string) : option bool := Some false.
Definition every_path_relative (p : string) : bool := true.
Definition sample_path_div (a b : string) : string := a +:+ "/" +:+ b.
Definition sample_datapath : string := "/usr/share/surge-xt".
Definition sample_to_string_float (f : Z) : string := pretty f.
Definition send_succeeds (addr value : string) : bool := true.

Definition sample_received (message : @OSCMessage Z) (w : @Synth Z nat)
  : outcome (@Synth Z nat) :=
  oscMessageReceived 4096 sample_table no_file every_path_relative
                     sample_path_div sample_datapath message w.

Definition sample_run_task (t : @Task Z) (w : @Synth Z nat) : outcome (@Synth Z nat) :=
  run_task sample_to_string_float send_succeeds t w.

(** A patch name of 4096 characters. *)
Definition long_name : string := string_of_list_ascii (replicate 4096 "a"%char).

Definition load_Init : @OSCMessage Z := mkMessage "/patch/load" [ArgString "Init"].
Definition load_long_name : @OSCMessage Z :=
  mkMessage "/patch/load" [ArgString long_name].
Definition save_MyPatch : @OSCMessage Z :=
  mkMessage "/patch/save" [ArgString "MyPatch"].
Definition save_empty_string : @OSCMessage Z :=
  mkMessage "/patch/save" [ArgString EmptyString].
Definition send_all : @OSCMessage Z := mkMessage "/send_all_parameters" [].


End OSC.

(** ** cli-main.cpp: runs of the playback object *)

Module PlaybackTrace.

Import Playback.

Section Trace.

Context {MidiMessage : Type}.
Variable BLOCK_SIZE : Z.

(** What the two threads do to the object, one whole call at a time. *)
Inductive Op : Type :=
| OpPush (m : MidiMessage)
| OpCallback (numSamples : Z).

Fixpoint run_ops (fuel : nat) (ops : list Op) (st : @State MidiMessage)
  : outcome (@State MidiMessage) :=
  match ops with
  | [] => Done st
  | OpPush m :: ops' =>
      do st1 <- handleIncomingMidiMessage m st; run_ops fuel ops' st1
  | OpCallback numSamples :: ops' =>
      do st1 <- audioDeviceIOCallbackWithContext BLOCK_SIZE fuel numSamples st;
      run_ops fuel ops' st1
  end.

(** The messages the producer was called with. *)
Definition pushed (ops : list Op) : list MidiMessage :=
  omap (fun o => match o with OpPush m => Some m | _ => None end) ops.

(** The number of unread slots the cursors stand for. *)
Definition unread (st : @State MidiMessage) : Z :=
  (midiWP st - midiRP st) mod midiBufferSz.

(** Every producer call of the run finds fewer than 4095 unread slots. *)
Fixpoint never_full (fuel : nat) (ops : list Op) (st : @State MidiMessage) : bool :=
  match ops with
  | [] => true
  | OpPush m :: ops' =>
      (unread st <? midiBufferSz - 1)
      && match handleIncomingMidiMessage m st with
         | Done st1 => never_full fuel ops' st1
         | _ => false
         end
  | OpCallback numSamples :: ops' =>
      match audioDeviceIOCallbackWithContext BLOCK_SIZE fuel numSamples st with
      | Done st1 => never_full fuel ops' st1
      | _ => false
      end
  end.

(** The output frames of a call log: frame index and index into the
    engine's block. *)
Definition frames_written (cs : list (@Call MidiMessage)) : list (Z * Z) :=
  omap (fun c => match c with WriteFrame i p => Some (i, p) | _ => None end) cs.

End Trace.

(** A ring of note numbers with 4095 unread slots: the write cursor is one
    slot behind the read cursor. *)
Definition full_ring : @State nat := mkState (replicate 4096 60%nat) 4095 0 32 [].

(** Two notes, a callback of 64 frames, a third note, a callback of 16
    frames. *)
Definition sample_run : list (@Op nat) :=
  [OpPush 60%nat; OpPush 64%nat; OpCallback 64; OpPush 67%nat; OpCallback 16].

End PlaybackTrace.

(** ** cli-main.cpp: the audio interface argument of [main] *)

Module Startup.

(** [isspace] in the C locale. *)
Definition is_space (c : ascii) : bool :=
  match nat_of_ascii c with
  | 32%nat | 9%nat | 10%nat | 11%nat | 12%nat | 13%nat => true
  | _ => false
  end.

(** The value of a decimal digit character. *)
Definition digit_of (c : ascii) : option Z :=
  let n := Z.of_nat (nat_of_ascii c) in
  if (48 <=? n) && (n <=? 57) then Some (n - 48) else None.

Fixpoint skip_spaces (s : string) : string :=
  match s with
  | String c s' => if is_space c then skip_spaces s' else s
  | EmptyString => s
  end.

(** The digits at the head of [s], read after the value [acc]. *)
Fixpoint digits_value (acc : Z) (s : string) : Z :=
  match s with
  | String c s' =>
      match digit_of c with
      | Some d => digits_value (acc * 10 + d) s'
      | None => acc
      end
  | EmptyString => acc
  end.

(** The number a string starts with: white space, an optional sign, then
    digits; what follows is ignored and a string without digits gives
    zero. *)
Definition decimal_value (s : string) : Z :=
  match skip_spaces s with
  | String "-" s' => - digits_value 0 s'
  | String "+" s' => digits_value 0 s'
  | s' => digits_value 0 s'
  end.

(** [std::atoi]: the number the string starts with, as an [int].  When
    that number cannot be represented in an [int] the behaviour of
    [atoi] is undefined, and the model gives no result. *)
Definition atoi (s : string) : option Z :=
  let v := decimal_value s in
  if (Int32.min_int <=? v) && (v <=? Int32.max_int) then Some v else None.

Definition dot : ascii := "."%char.

(** The [else] branch of [if (audioInterface.empty())] in [main], lines
    240 to 262, once the program has come that far: [inl code] stands for
    [exit(code)], [inr (audioTypeIndex, audioDeviceIndex)] for falling
    through.  [types_size] is [types.size()].  Both numbers are read before
    the type index is tested; there is no result when the behaviour of
    either [atoi] is undefined. *)
Definition parse_audio_interface (audioInterface : string) (types_size : Z)
  : option (Z + Z * Z) :=
  match OSC.up_to_delim dot audioInterface with
  | None => Some (inl 3)
  | Some (before, after) =>
      match atoi before with
      | Some da =>
          match atoi after with
          | Some dt =>
              Some (if (da <? 0) || (types_size <=? da) then inl 4 else inr (da, dt))
          | None => None
          end
      | None => None
      end
  end.

(** The index as [listAudioDevices] prints it between the brackets:
    [i << "." << j]. *)
Definition listed_index (i j : Z) : string :=
  OSC.to_string_int i +:+ "." +:+ OSC.to_string_int j.

End Startup.

(** ** OpenSoundControl.cpp: bundles, start and stop *)

Module OSCExtra.

Import OSC.

(** A loop that hands every element of [l] to [f] in turn and stops at the
    first call that does not return. *)
Fixpoint for_each {A W : Type} (f : A -> W -> outcome W) (l : list A) (w : W)
  : outcome W :=
  match l with
  | [] => Done w
  | a :: l' => do w1 <- f a w; for_each f l' w1
  end.

Section Bundles.

Context {Float32 ParamRef : Type}.
Variable FILENAME_MAX : nat.
Variable parameterFromOSCName : string -> option ParamRef.
Variable fs_exists : string -> option bool.
Variable is_relative : string -> bool.
Variable path_div : string -> string -> string.
Variable datapath : string.

(** [juce::OSCBundle]: its elements are messages or bundles. *)
#[warnings="-register-all"]
Inductive OSCBundleElement : Type :=
| ElemMessage (m : @OSCMessage Float32)
| ElemBundle (b : list OSCBundleElement).

(** The body of the loop of [oscBundleReceived], for one element; the
    recursive call on a nested bundle is the loop over its elements. *)
Fixpoint oscElementReceived (e : OSCBundleElement) (w : @Synth Float32 ParamRef)
  : outcome (@Synth Float32 ParamRef) :=
  match e with
  | ElemMessage m =>
      oscMessageReceived FILENAME_MAX parameterFromOSCName fs_exists is_relative
                         path_div datapath m w
  | ElemBundle b => for_each oscElementReceived b w
  end.

Definition oscBundleReceived (bundle : list OSCBundleElement) (w : @Synth Float32 ParamRef)
  : outcome (@Synth Float32 ParamRef) :=
  for_each oscElementReceived bundle w.

(** The messages of a bundle, those of nested bundles in their place. *)
Fixpoint messages_of (e : OSCBundleElement) : list (@OSCMessage Float32) :=
  match e with
  | ElemMessage m => [m]
  | ElemBundle b => concat (map messages_of b)
  end.

Definition bundle_messages (bundle : list OSCBundleElement) : list (@OSCMessage Float32) :=
  concat (map messages_of bundle).

(** No save and no transmission in an effect log: [savePatch],
    [savePatchToPath], the OSC sender and its failure report are absent. *)
Definition is_direct_io (e : @Effect Float32 ParamRef) : bool :=
  match e with
  | SavePatch _ _ | SavePatchToPath _ | SenderSend _ _ | Cout _ => true
  | _ => false
  end.

Definition no_direct_io (es : list (@Effect Float32 ParamRef)) : bool :=
  forallb (fun e => negb (is_direct_io e)) es.

(** The failure reports in an effect log. *)
Definition failure_reports (es : list (@Effect Float32 ParamRef)) : nat :=
  length (List.filter (fun e => match e with Cout _ => true | _ => false end) es).

End Bundles.

(** The two kinds of tuning file the dispatcher knows. *)
Inductive TuningKind : Type := Scale | Mapping.

Definition kind_token (k : TuningKind) : string :=
  match k with Scale => "scl" | Mapping => "kbm" end.

Definition kind_key (k : TuningKind) : DefaultKey :=
  match k with Scale => LastSCLPath | Mapping => LastKBMPath end.

Definition other_key (k : TuningKind) : DefaultKey :=
  match k with Scale => LastKBMPath | Mapping => LastSCLPath end.

(** The directory below [datapath] as the path/... branch writes it. *)
Definition kind_library (k : TuningKind) : string :=
  match k with
  | Scale => "tuning_library/SCL"
  | Mapping => "tuning_library/KBM Concert Pitch"
  end.

Definition kind_directory (k : TuningKind) : string :=
  match k with Scale => "SCL" | Mapping => "KBM Concert Pitch" end.

Definition kind_extension (k : TuningKind) : string :=
  match k with Scale => ".scl" | Mapping => ".kbm" end.

(** The path that a tuning/path message with joined arguments [dataStr]
    makes the default: the library directory for the reset word, [dataStr]
    itself otherwise. *)
Definition path_to_store (path_div : string -> string -> string) (datapath : string)
    (k : TuningKind) (dataStr : string) : string :=
  if String.eqb dataStr "_reset" then path_div datapath (kind_library k) else dataStr.

(** A send that the transport refused. *)
Definition refused (sender_send : string -> string -> bool) (av : string * string)
  : bool :=
  negb (sender_send (fst av) (snd av)).

Definition kind_load {Float32 ParamRef : Type} (k : TuningKind) (path : string)
  : @Effect Float32 ParamRef :=
  match k with Scale => LoadTuningFromSCL path | Mapping => LoadMappingFromKBM path end.

Section StartStop.

Context {Float32 ParamRef : Type}.

(** Whether the receiver, and the sender, can be connected to a port. *)
Variable receiver_connect : Z -> bool.
Variable sender_connect : Z -> bool.

(** The members of [OpenSoundControl] that starting and stopping touch,
    with the two flags of [synth->storage].  [synth_set] tells whether
    [synth] points to a synthesizer; [listener_added] whether the object is
    registered as its own listener. *)
Record Controller : Type := mkController {
  synth_set : bool;
  world : @Synth Float32 ParamRef;
  listening : bool;
  listener_added : bool;
  iportnum : Z;
  oportnum : Z;
  oscListenerRunning : bool;
  oscSending : bool
}.

(** The result of a member function that may use [synth] without a
    check. *)
Inductive started (A : Type) : Type :=
| Returned (a : A)
| NullSynth.
Arguments Returned {A} a.
Arguments NullSynth {A}.

Definition set_sendingOSC (b : bool) (w : @Synth Float32 ParamRef)
  : @Synth Float32 ParamRef :=
  mkSynth (patchid_file w) (has_patchid_file w) b (param_ptr w)
          (userDefaultPath w) (effects w).

(** [initOSC]: [synth = surge.get()]. *)
Definition initOSC (c : Controller) : Controller :=
  mkController true (world c) (listening c) (listener_added c) (iportnum c)
               (oportnum c) (oscListenerRunning c) (oscSending c).

(** [initOSCIn(port)], with the value it returns. *)
Definition initOSCIn (port : Z) (c : Controller) : started (bool * Controller) :=
  if receiver_connect port then
    if synth_set c then
      Returned (true,
                mkController (synth_set c) (world c) true true port (oportnum c)
                             true (oscSending c))
    else NullSynth
  else Returned (false, c).

Definition stopListening (c : Controller) : Controller :=
  if negb (listening c) then c
  else
    mkController (synth_set c) (world c) false false (iportnum c) (oportnum c)
                 (if synth_set c then false else oscListenerRunning c)
                 (oscSending c).

(** The destructor. *)
Definition destroy (c : Controller) : Controller :=
  if listening c then stopListening c else c.

(** [initOSCOut(port)], with the value it returns. *)
Definition initOSCOut (port : Z) (c : Controller) : started (bool * Controller) :=
  if negb (sender_connect port) then Returned (false, c)
  else
    if synth_set c then
      Returned (true,
                mkController (synth_set c) (set_sendingOSC true (world c)) (listening c)
                             (listener_added c) (iportnum c) port
                             (oscListenerRunning c) true)
    else NullSynth.

Definition stopSending (c : Controller) : started Controller :=
  if negb (sendingOSC (world c)) then Returned c
  else
    if synth_set c then
      Returned (mkController (synth_set c) (set_sendingOSC false (world c)) (listening c)
                             (listener_added c) (iportnum c) (oportnum c)
                             (oscListenerRunning c) false)
    else NullSynth.

(** The calls that start and stop the two directions. *)
Inductive Switch : Type :=
| SwInitOSCIn (port : Z)
| SwStopListening
| SwInitOSCOut (port : Z)
| SwStopSending.

Definition switch (s : Switch) (c : Controller) : started Controller :=
  match s with
  | SwInitOSCIn port =>
      match initOSCIn port c with
      | Returned (_, c') => Returned c'
      | NullSynth => NullSynth
      end
  | SwStopListening => Returned (stopListening c)
  | SwInitOSCOut port =>
      match initOSCOut port c with
      | Returned (_, c') => Returned c'
      | NullSynth => NullSynth
      end
  | SwStopSending => stopSending c
  end.

Fixpoint switches (l : list Switch) (c : Controller) : started Controller :=
  match l with
  | [] => Returned c
  | s :: l' =>
      match switch s c with
      | Returned c' => switches l' c'
      | NullSynth => NullSynth
      end
  end.

(** The flags kept in [synth->storage] repeat those of the object. *)
Definition flags_mirrored (c : Controller) : Prop :=
  oscListenerRunning c = listening c /\ oscSending c = sendingOSC (world c).

End StartStop.

Arguments Returned {A} a.
Arguments NullSynth {A}.

(** *** Concrete messages and objects *)

Definition every_path_exists (p : string) : option bool := Some true.

Definition sample_handled (exists_ : string -> option bool) (message : @OSCMessage Z)
    (w : @Synth Z nat) : outcome (@Synth Z nat) :=
  oscMessageReceived 4096 sample_table exists_ every_path_relative
                     sample_path_div sample_datapath message w.

(** The state a run leaves, or [w] when the run does not return. *)
Definition state_after (w : @Synth Z nat) (r : outcome (@Synth Z nat)) : @Synth Z nat :=
  match r with Done w' => w' | _ => w end.

Definition unknown_address : @OSCMessage Z := mkMessage "/fx/a/1/mix" [ArgFloat32 1].
Definition scale_directory : @OSCMessage Z :=
  mkMessage "/tuning/path/scl" [ArgString "/home/me/scales"].
Definition scale_name : @OSCMessage Z :=
  mkMessage "/tuning/scl" [ArgString "bohlen-pierce"].
Definition silent_synth : @Synth Z nat :=
  mkSynth (replicate 4096 NUL) false false sample_params (fun _ => None) [].

(** The object after [initOSC], before any port was opened. *)
Definition fresh_controller : @Controller Z nat :=
  mkController true silent_synth false false 0 0 false false.

(** Ports above 1023 can be opened. *)
Definition unprivileged (port : Z) : bool := 1023 <? port.

Definition sample_switches : list Switch :=
  [SwInitOSCIn 53280; SwInitOSCOut 80; SwInitOSCOut 53281; SwStopListening;
   SwStopSending; SwStopSending].

End OSCExtra.

(** * Properties *)

Import Playback.

(** Case analysis on the result of a call inside a [do]: the branches in
    which the call does not return contradict a hypothesis [_ = Done _]. *)
Tactic Notation "case_outcome" constr(e) "as" ident(r) ident(H) :=
  destruct e as [r | | |] eqn:H; simpl; try discriminate.

(** ** Cursor arithmetic *)

Lemma wrap_small (z : Z) : Int32.min_int <= z <= Int32.max_int -> Int32.wrap z = z.
Proof.
  unfold Int32.min_int, Int32.max_int, Int32.wrap. intros H.
  rewrite Z.mod_small; lia.
Qed.

Lemma mask_is_ones : midiBufferSzMask = Z.ones 12.
Proof. reflexivity. Qed.

Lemma next_cursor_range (c : Z) : 0 <= next_cursor c < midiBufferSz.
Proof.
  unfold next_cursor. rewrite mask_is_ones, Z.land_ones by lia.
  change (2 ^ 12) with midiBufferSz. apply Z.mod_pos_bound. reflexivity.
Qed.

Lemma next_cursor_mod (c : Z) :
  0 <= c < midiBufferSz -> next_cursor c = (c + 1) mod midiBufferSz.
Proof.
  unfold midiBufferSz. intros H. unfold next_cursor, Int32.add.
  rewrite wrap_small by (unfold Int32.min_int, Int32.max_int; lia).
  rewrite mask_is_ones, Z.land_ones by lia. reflexivity.
Qed.

Section RingProofs.

Context {MidiMessage : Type}.
Implicit Types (st : @State MidiMessage) (m : MidiMessage).

Lemma in_range_inv st i :
  ring_inv st -> 0 <= i < midiBufferSz -> in_range i st = true.
Proof.
  intros (Hlen & _) Hi. unfold in_range. rewrite Hlen.
  apply andb_true_intro. split; [apply Z.leb_le | apply Z.ltb_lt]; lia.
Qed.

Lemma lookup_in_ring st i :
  ring_inv st -> 0 <= i < midiBufferSz -> is_Some (midiBuffer st !! Z.to_nat i).
Proof.
  intros (Hlen & _) Hi. apply lookup_lt_is_Some. lia.
Qed.

(** The producer on a state that satisfies the invariant. *)
Lemma push_spec st m :
  ring_inv st ->
  handleIncomingMidiMessage m st =
    Done (mkState (<[Z.to_nat (midiWP st) := m]> (midiBuffer st))
                  ((midiWP st + 1) mod midiBufferSz) (midiRP st) (pos st) (calls st)).
Proof.
  intros Hinv. unfold handleIncomingMidiMessage, write_slot.
  rewrite in_range_inv by (auto; apply Hinv). simpl. unfold set_midiWP. simpl.
  rewrite next_cursor_mod by apply Hinv. reflexivity.
Qed.

(** One iteration of the drain loop on such a state. *)
Lemma drain_step_spec st :
  ring_inv st ->
  exists m, midiBuffer st !! Z.to_nat (midiRP st) = Some m /\
    drain_step st =
      Done (mkState (midiBuffer st) (midiWP st) ((midiRP st + 1) mod midiBufferSz)
                    (pos st) (calls st ++ [ApplyMidi m])).
Proof.
  intros Hinv. destruct (lookup_in_ring st (midiRP st) Hinv) as [m Hm]; [apply Hinv|].
  exists m. split; [exact Hm|]. unfold drain_step, read_slot.
  rewrite in_range_inv by (auto; apply Hinv). rewrite Hm. simpl.
  unfold set_midiRP. simpl. rewrite next_cursor_mod by apply Hinv. reflexivity.
Qed.

Lemma ring_inv_fields st st' :
  ring_inv st -> length (midiBuffer st') = length (midiBuffer st) ->
  0 <= midiWP st' < midiBufferSz -> 0 <= midiRP st' < midiBufferSz -> ring_inv st'.
Proof.
  intros (Hlen & _) Hl Hw Hr. unfold ring_inv. rewrite Hl. auto.
Qed.

Lemma cyclic_neq (r k : Z) :
  0 <= r < midiBufferSz -> 0 < k < midiBufferSz -> (r + k) mod midiBufferSz <> r.
Proof.
  unfold midiBufferSz. intros Hr Hk.
  destruct (Z_lt_dec (r + k) 4096) as [Hlt | Hge].
  - rewrite Z.mod_small; lia.
  - replace (r + k) with ((r + k - 4096) + 1 * 4096) by lia.
    rewrite Z.mod_add by lia. rewrite Z.mod_small; lia.
Qed.

(** The drain loop hands the slots after the read cursor to [applyMidi],
    one per iteration, and stops at [mw]. *)
Lemma drain_loop_reads (es : list MidiMessage) :
  forall st (fuel : nat),
    ring_inv st ->
    Z.of_nat (length es) < midiBufferSz ->
    (length es <= fuel)%nat ->
    (forall (j : nat) e, es !! j = Some e ->
       midiBuffer st !! Z.to_nat ((midiRP st + Z.of_nat j) mod midiBufferSz) = Some e) ->
    drain_loop fuel ((midiRP st + Z.of_nat (length es)) mod midiBufferSz) st =
      Done (mkState (midiBuffer st) (midiWP st)
                    ((midiRP st + Z.of_nat (length es)) mod midiBufferSz)
                    (pos st) (calls st ++ map ApplyMidi es)).
Proof.
  induction es as [| e es IH]; intros st fuel Hinv Hlen Hfuel Hslots.
  - assert (Hrp : (midiRP st + Z.of_nat 0) mod midiBufferSz = midiRP st).
    { rewrite Z.add_0_r. apply Z.mod_small, Hinv. }
    simpl length. rewrite Hrp. simpl map. rewrite app_nil_r.
    destruct fuel; simpl; rewrite Z.eqb_refl; destruct st; reflexivity.
  - simpl length in *. destruct fuel as [| fuel]; [lia|].
    simpl drain_loop.
    destruct (Z.eqb_spec ((midiRP st + Z.of_nat (S (length es))) mod midiBufferSz)
                         (midiRP st)) as [Heq | _].
    { exfalso. revert Heq. apply cyclic_neq; [apply Hinv | lia]. }
    destruct (drain_step_spec st Hinv) as (m & Hm & ->).
    assert (m = e) as ->.
    { specialize (Hslots 0%nat e eq_refl). simpl in Hslots.
      rewrite Z.add_0_r, Z.mod_small in Hslots by apply Hinv. congruence. }
    simpl bind.
    set (st1 := mkState (midiBuffer st) (midiWP st) ((midiRP st + 1) mod midiBufferSz)
                        (pos st) (calls st ++ [ApplyMidi e])).
    assert (Hinv1 : ring_inv st1).
    { apply (ring_inv_fields st); [exact Hinv | reflexivity | apply Hinv |].
      apply Z.mod_pos_bound. reflexivity. }
    assert (Hshift : forall k : Z,
               ((midiRP st + 1) mod midiBufferSz + k) mod midiBufferSz =
               (midiRP st + (1 + k)) mod midiBufferSz).
    { intros k. rewrite Z.add_mod_idemp_l by discriminate. f_equal. lia. }
    replace ((midiRP st + Z.of_nat (S (length es))) mod midiBufferSz)
      with ((midiRP st1 + Z.of_nat (length es)) mod midiBufferSz).
    2:{ simpl. rewrite Hshift. f_equal. lia. }
    rewrite (IH st1 fuel Hinv1); [| lia | lia |].
    + simpl. rewrite <- app_assoc. reflexivity.
    + intros j e' Hj. simpl. rewrite Hshift.
      replace (1 + Z.of_nat j) with (Z.of_nat (S j)) by lia.
      apply Hslots. exact Hj.
Qed.

Lemma push_all_app (a b : list MidiMessage) st :
  push_all (a ++ b) st = (do st1 <- push_all a st; push_all b st1).
Proof.
  revert st. induction a as [| x a IH]; intros st; simpl; [reflexivity|].
  destruct (handleIncomingMidiMessage x st); simpl; auto.
Qed.

(** After [ms] is pushed, the write cursor has advanced by [length ms]
    cyclically and the newest 4096 messages sit in their slots. *)
Lemma push_all_content (ms : list MidiMessage) st :
  ring_inv st ->
  exists st1,
    push_all ms st = Done st1 /\ ring_inv st1 /\
    midiWP st1 = (midiWP st + Z.of_nat (length ms)) mod midiBufferSz /\
    midiRP st1 = midiRP st /\ pos st1 = pos st /\ calls st1 = calls st /\
    forall (k : nat) e, ms !! k = Some e ->
      Z.of_nat (length ms) - Z.of_nat k <= midiBufferSz ->
      midiBuffer st1 !! Z.to_nat ((midiWP st + Z.of_nat k) mod midiBufferSz) = Some e.
Proof.
  intros Hinv. induction ms as [| x ms IH] using rev_ind.
  - exists st. simpl. repeat split; try apply Hinv.
    + rewrite Z.add_0_r, Z.mod_small; [reflexivity | apply Hinv].
    + intros k e Hk. discriminate Hk.
  - destruct IH as (st1 & Hrun & Hinv1 & Hwp & Hrp & Hpos & Hcalls & Hslots).
    rewrite push_all_app, Hrun. simpl. rewrite (push_spec st1 x Hinv1). simpl.
    eexists. split; [reflexivity|]. simpl.
    assert (Hbound : 0 <= (midiWP st1 + 1) mod midiBufferSz < midiBufferSz)
      by (apply Z.mod_pos_bound; reflexivity).
    split.
    { apply (ring_inv_fields st1); simpl; auto.
      - apply length_insert.
      - apply Hinv1. }
    rewrite length_app. simpl length.
    split.
    { rewrite Hwp, Z.add_mod_idemp_l by discriminate. f_equal. lia. }
    repeat split; auto.
    intros k e Hk Hlate.
    assert (Hwp1 : 0 <= midiWP st1 < midiBufferSz) by apply Hinv1.
    destruct (decide (k = length ms)) as [-> | Hne].
    + rewrite list_lookup_middle in Hk by reflexivity. injection Hk as <-.
      rewrite <- Hwp. apply list_lookup_insert_eq.
      destruct Hinv1 as (Hl & _). lia.
    + assert (Hlt : (k < length ms)%nat).
      { apply lookup_lt_Some in Hk. rewrite length_app in Hk. simpl in Hk. lia. }
      rewrite lookup_app_l in Hk by exact Hlt.
      rewrite list_lookup_insert_ne.
      * apply Hslots; [exact Hk | lia].
      * intros Heq. apply Z2Nat.inj in Heq; try lia.
        2:{ apply Z.mod_pos_bound. reflexivity. }
        revert Heq. rewrite Hwp.
        replace (midiWP st + Z.of_nat (length ms))
          with ((midiWP st + Z.of_nat k) + (Z.of_nat (length ms) - Z.of_nat k)) by lia.
        rewrite <- Z.add_mod_idemp_l by discriminate.
        apply cyclic_neq.
        -- apply Z.mod_pos_bound. reflexivity.
        -- lia.
Qed.

Lemma omap_all_some {A B : Type} (f : A -> option B) (l : list A) :
  (forall x, x ∈ l -> is_Some (f x)) -> map Some (omap f l) = map f l.
Proof.
  induction l as [| a l IH]; intros Hall; [reflexivity|].
  simpl. destruct (Hall a) as [b Hb]; [left|]. rewrite Hb. simpl.
  f_equal. apply IH. intros x Hx. apply Hall. right. exact Hx.
Qed.

Lemma slot_after_some st (j : nat) : ring_inv st -> is_Some (slot_after st j).
Proof.
  intros Hinv. apply lookup_in_ring; [exact Hinv|].
  apply Z.mod_pos_bound. reflexivity.
Qed.

Lemma pending_length st :
  ring_inv st ->
  length (pending st) = Z.to_nat ((midiWP st - midiRP st) mod midiBufferSz).
Proof.
  intros Hinv. unfold pending.
  rewrite <- (length_map Some), omap_all_some, length_map, length_seq; [reflexivity|].
  intros x _. apply slot_after_some, Hinv.
Qed.

Lemma pending_lookup st (j : nat) e :
  ring_inv st -> pending st !! j = Some e -> slot_after st j = Some e.
Proof.
  intros Hinv Hj.
  assert (Hsome : map Some (pending st) !! j = Some (Some e)).
  { rewrite list_lookup_fmap, Hj. reflexivity. }
  unfold pending in Hsome. rewrite omap_all_some in Hsome.
  2:{ intros x _. apply slot_after_some, Hinv. }
  rewrite list_lookup_fmap in Hsome.
  destruct (seq 0 _ !! j) as [x|] eqn:Hx; [|discriminate].
  apply lookup_seq in Hx as [-> _]. simpl in Hsome. congruence.
Qed.

Lemma pending_nil st : midiRP st = midiWP st -> pending st = [].
Proof.
  intros Heq. unfold pending. rewrite Heq, Z.sub_diag. reflexivity.
Qed.

(** A drain pass applies the pending messages, oldest first, and leaves
    the read cursor on the write cursor. *)
Lemma drain_spec st (fuel : nat) :
  ring_inv st -> (Z.to_nat midiBufferSz <= fuel)%nat ->
  drain fuel st =
    Done (mkState (midiBuffer st) (midiWP st) (midiWP st) (pos st)
                  (calls st ++ map ApplyMidi (pending st))).
Proof.
  intros Hinv Hfuel.
  assert (Hcount : 0 <= (midiWP st - midiRP st) mod midiBufferSz < midiBufferSz)
    by (apply Z.mod_pos_bound; reflexivity).
  assert (Hlen := pending_length st Hinv).
  assert (Hmw : (midiRP st + Z.of_nat (length (pending st))) mod midiBufferSz
                = midiWP st).
  { rewrite Hlen, Z2Nat.id by lia. rewrite Z.add_mod_idemp_r by discriminate.
    replace (midiRP st + (midiWP st - midiRP st)) with (midiWP st) by lia.
    apply Z.mod_small, Hinv. }
  unfold drain. rewrite <- Hmw at 1.
  rewrite (drain_loop_reads (pending st) st fuel Hinv).
  - rewrite Hmw. reflexivity.
  - lia.
  - unfold midiBufferSz in *. lia.
  - intros j e Hj. apply (pending_lookup st j e Hinv Hj).
Qed.

End RingProofs.

(** ** The audio callback *)

Section CallbackProofs.

Context {MidiMessage : Type}.
Variable BLOCK_SIZE : Z.
Implicit Types (st : @State MidiMessage) (cs : list (@Call MidiMessage)).

Lemma init_ring_inv (empty : MidiMessage) : ring_inv (init BLOCK_SIZE empty).
Proof.
  unfold ring_inv, init. cbn [midiBuffer midiWP midiRP].
  rewrite length_replicate. unfold midiBufferSz. lia.
Qed.

Lemma push_preserves st m st' :
  ring_inv st -> handleIncomingMidiMessage m st = Done st' -> ring_inv st'.
Proof.
  intros Hinv. rewrite (push_spec st m Hinv). intros [= <-].
  apply (ring_inv_fields st); simpl; auto.
  - apply length_insert.
  - apply Z.mod_pos_bound. reflexivity.
  - apply Hinv.
Qed.

Lemma drain_step_preserves st st' :
  ring_inv st -> drain_step st = Done st' -> ring_inv st'.
Proof.
  intros Hinv. destruct (drain_step_spec st Hinv) as (m & _ & ->). intros [= <-].
  apply (ring_inv_fields st); simpl; auto.
  - apply Hinv.
  - apply Z.mod_pos_bound. reflexivity.
Qed.

Lemma drain_loop_preserves (fuel : nat) :
  forall (mw : Z) st st',
    ring_inv st -> drain_loop fuel mw st = Done st' -> ring_inv st'.
Proof.
  induction fuel as [| fuel IH]; intros mw st st' Hinv; simpl;
    destruct (mw =? midiRP st); try (intros [= <-]; exact Hinv); try discriminate.
  case_outcome (drain_step st) as st1 Hstep.
  apply IH. apply (drain_step_preserves st st1 Hinv Hstep).
Qed.

Lemma frame_preserves (fuel : nat) (i : Z) st st' :
  ring_inv st -> frame BLOCK_SIZE fuel i st = Done st' -> ring_inv st'.
Proof.
  intros Hinv. unfold frame, block_boundary, drain.
  destruct (BLOCK_SIZE <=? pos st).
  - case_outcome (drain_loop fuel (midiWP st) st) as st1 Hd.
    intros [= <-]. apply (drain_loop_preserves _ _ _ _ Hinv Hd).
  - simpl. intros [= <-]. exact Hinv.
Qed.

Lemma frames_preserves (fuel n : nat) :
  forall (i : Z) st st',
    ring_inv st -> frames BLOCK_SIZE fuel n i st = Done st' -> ring_inv st'.
Proof.
  induction n as [| n IH]; intros i st st' Hinv; simpl.
  - intros [= <-]. exact Hinv.
  - case_outcome (frame BLOCK_SIZE fuel i st) as st1 Hf.
    apply IH. apply (frame_preserves _ _ _ _ Hinv Hf).
Qed.

Lemma callback_preserves (fuel : nat) (numSamples : Z) st st' :
  ring_inv st ->
  audioDeviceIOCallbackWithContext BLOCK_SIZE fuel numSamples st = Done st' ->
  ring_inv st'.
Proof.
  intros Hinv. unfold audioDeviceIOCallbackWithContext. apply frames_preserves.
  exact Hinv.
Qed.

Lemma reachable_ring_inv (empty : MidiMessage) st :
  reachable BLOCK_SIZE empty st -> ring_inv st.
Proof.
  induction 1 as [| st m st' _ IH Hpush | st st' _ IH Hstep
                  | st fuel n st' _ IH Hcb].
  - apply init_ring_inv.
  - apply (push_preserves st m st' IH Hpush).
  - apply (drain_step_preserves st st' IH Hstep).
  - apply (callback_preserves fuel n st st' IH Hcb).
Qed.

(** C10.  In every state the object can reach, both cursors index one of
    the 4096 slots.  From such a state a producer call succeeds (its write
    is in bounds), moves only the write cursor, by one slot modulo 4096,
    and leaves the cursors in range; an iteration of the drain loop
    succeeds (its read is in bounds), moves only the read cursor, by one
    slot modulo 4096, and leaves the cursors in range. *)
Theorem cursors_always_index_a_slot (empty : MidiMessage) st :
  reachable BLOCK_SIZE empty st ->
  (0 <= midiWP st <= 4095 /\ 0 <= midiRP st <= 4095 /\
   length (midiBuffer st) = 4096%nat) /\
  (forall m, exists st',
      handleIncomingMidiMessage m st = Done st' /\
      0 <= midiWP st' <= 4095 /\ 0 <= midiRP st' <= 4095 /\
      midiWP st' = (midiWP st + 1) mod 4096 /\ midiRP st' = midiRP st) /\
  (exists st',
      drain_step st = Done st' /\
      0 <= midiWP st' <= 4095 /\ 0 <= midiRP st' <= 4095 /\
      midiRP st' = (midiRP st + 1) mod 4096 /\ midiWP st' = midiWP st /\
      midiBuffer st' = midiBuffer st).
Proof.
  intros Hreach. assert (Hinv := reachable_ring_inv empty st Hreach).
  assert (Hfields : forall s : @State MidiMessage, ring_inv s ->
            0 <= midiWP s <= 4095 /\ 0 <= midiRP s <= 4095 /\
            length (midiBuffer s) = 4096%nat).
  { unfold ring_inv, midiBufferSz. intros s (Hl & Hw & Hr). lia. }
  split; [apply Hfields, Hinv|]. split.
  - intros m. eexists. split; [apply (push_spec st m Hinv)|].
    assert (Hinv' := push_preserves st m _ Hinv (push_spec st m Hinv)).
    destruct (Hfields _ Hinv') as (Hw & Hr & _). auto.
  - destruct (drain_step_spec st Hinv) as (m & _ & Hstep).
    eexists. split; [exact Hstep|].
    assert (Hinv' := drain_step_preserves st _ Hinv Hstep).
    destruct (Hfields _ Hinv') as (Hw & Hr & _). auto.
Qed.

(** C1, as the code has it.  When [N] messages are pushed on a drained
    ring (read cursor on the write cursor) and nothing is drained in
    between, the next drain pass applies exactly [N mod 4096] messages:
    the last [N mod 4096] pushed, in push order.  For [N <= 4095] these
    are all [N] messages and none is dropped.  The pass ends with the
    read cursor on the write cursor, whatever fuel of at least 4096
    iterations the loop is given. *)
Theorem drain_applies_last_pushes_mod_capacity (ms : list MidiMessage) st :
  ring_inv st -> midiRP st = midiWP st ->
  length (newest_mod_capacity ms) = (length ms mod 4096)%nat /\
  ((length ms <= 4095)%nat -> newest_mod_capacity ms = ms) /\
  exists st1 st2,
    push_all ms st = Done st1 /\
    (forall fuel : nat, (4096 <= fuel)%nat -> drain fuel st1 = Done st2) /\
    calls st2 = calls st ++ map ApplyMidi (newest_mod_capacity ms) /\
    midiRP st2 = midiWP st2.
Proof.
  intros Hinv Hdrained. unfold newest_mod_capacity.
  set (kept := drop (length ms - length ms mod 4096)%nat ms).
  assert (Hdm := Nat.div_mod_eq (length ms) 4096).
  assert (Hub : (length ms mod 4096 < 4096)%nat) by (apply Nat.mod_upper_bound; lia).
  assert (Hkept : length kept = (length ms mod 4096)%nat).
  { unfold kept. rewrite length_drop. lia. }
  split; [exact Hkept|]. split.
  { intros Hsmall. unfold kept.
    rewrite Nat.mod_small by lia. rewrite Nat.sub_diag. reflexivity. }
  destruct (push_all_content ms st Hinv)
    as (st1 & Hrun & Hinv1 & Hwp & Hrp & Hpos & Hcalls & Hslots).
  assert (Hmw : midiWP st1 = (midiRP st1 + Z.of_nat (length kept)) mod midiBufferSz).
  { rewrite Hwp, Hrp, Hdrained, Hkept.
    rewrite Hdm at 1. unfold midiBufferSz.
    replace (midiWP st + Z.of_nat (4096 * (length ms / 4096) + length ms mod 4096))
      with (midiWP st + Z.of_nat (length ms mod 4096)
            + Z.of_nat (length ms / 4096) * 4096) by lia.
    apply Z.mod_add. lia. }
  assert (Hreads : forall fuel : nat, (4096 <= fuel)%nat ->
            drain fuel st1 =
              Done (mkState (midiBuffer st1) (midiWP st1)
                            ((midiRP st1 + Z.of_nat (length kept)) mod midiBufferSz)
                            (pos st1) (calls st1 ++ map ApplyMidi kept))).
  { intros fuel Hfuel. unfold drain. rewrite Hmw at 1.
    apply drain_loop_reads; [exact Hinv1 | unfold midiBufferSz; lia | lia |].
    intros j e Hj. unfold kept in Hj. rewrite lookup_drop in Hj.
    rewrite Hrp, Hdrained.
    assert (Hjlt : (j < length ms mod 4096)%nat).
    { rewrite <- Hkept. apply lookup_lt_Some with e. unfold kept.
      rewrite lookup_drop. exact Hj. }
    specialize (Hslots _ e Hj).
    replace ((midiWP st + Z.of_nat (length ms - length ms mod 4096 + j)) mod midiBufferSz)
      with ((midiWP st + Z.of_nat j) mod midiBufferSz) in Hslots.
    - apply Hslots. unfold midiBufferSz. lia.
    - unfold midiBufferSz.
      replace (midiWP st + Z.of_nat (length ms - length ms mod 4096 + j))
        with (midiWP st + Z.of_nat j + Z.of_nat (length ms / 4096) * 4096) by lia.
      symmetry. apply Z.mod_add. lia. }
  exists st1. eexists. split; [exact Hrun|]. split; [exact Hreads|].
  simpl. rewrite Hcalls. split; [reflexivity | symmetry; exact Hmw].
Qed.

Hypothesis BLOCK_SIZE_pos : 0 < BLOCK_SIZE.
Hypothesis BLOCK_SIZE_int : BLOCK_SIZE <= Int32.max_int.

(** A frame inside a block only copies a sample pair. *)
Lemma frame_fill (fuel : nat) (i : Z) st :
  0 <= pos st < BLOCK_SIZE ->
  frame BLOCK_SIZE fuel i st =
    Done (mkState (midiBuffer st) (midiWP st) (midiRP st) (pos st + 1)
                  (calls st ++ [WriteFrame i (pos st)])).
Proof.
  intros Hpos. unfold frame.
  destruct (Z.leb_spec BLOCK_SIZE (pos st)) as [Hle | _]; [lia|].
  simpl. unfold set_pos, Int32.add. simpl.
  rewrite wrap_small; [reflexivity|].
  unfold Int32.min_int, Int32.max_int in *. lia.
Qed.

(** A frame at a block boundary drains, synthesises, then copies the
    sample pair at counter zero. *)
Lemma frame_boundary (fuel : nat) (i : Z) st :
  ring_inv st -> (Z.to_nat midiBufferSz <= fuel)%nat -> BLOCK_SIZE <= pos st ->
  frame BLOCK_SIZE fuel i st =
    Done (mkState (midiBuffer st) (midiWP st) (midiWP st) 1
                  (calls st ++ map ApplyMidi (pending st) ++ [Process; WriteFrame i 0])).
Proof.
  intros Hinv Hfuel Hpos. unfold frame, block_boundary.
  destruct (Z.leb_spec BLOCK_SIZE (pos st)) as [_ | Hlt]; [|lia].
  rewrite (drain_spec st fuel Hinv Hfuel). simpl.
  unfold set_pos. simpl. rewrite <- !app_assoc. reflexivity.
Qed.

Lemma block_aligned_boundary (c i : Z) (es : list MidiMessage) cs :
  BLOCK_SIZE <= c -> block_aligned BLOCK_SIZE 1 cs = true ->
  block_aligned BLOCK_SIZE c (map ApplyMidi es ++ Process :: WriteFrame i 0 :: cs) = true.
Proof.
  intros Hc Hrest.
  assert (Hle : (BLOCK_SIZE <=? c) = true) by (apply Z.leb_le; exact Hc).
  assert (Hlt : (0 <? BLOCK_SIZE) = true) by (apply Z.ltb_lt; exact BLOCK_SIZE_pos).
  induction es as [| e es IH]; simpl.
  - rewrite Hle, Hlt. simpl. exact Hrest.
  - rewrite Hle, IH. simpl. destruct es; reflexivity.
Qed.

Lemma applied_app cs1 cs2 : applied (cs1 ++ cs2) = applied cs1 ++ applied cs2.
Proof. unfold applied. apply omap_app. Qed.

Lemma applied_map_ApplyMidi (es : list MidiMessage) : applied (map ApplyMidi es) = es.
Proof. induction es as [| e es IH]; [reflexivity|]. simpl. f_equal. exact IH. Qed.

Lemma count_calls_app f cs1 cs2 :
  count_calls f (cs1 ++ cs2) = (count_calls f cs1 + count_calls f cs2)%nat.
Proof. unfold count_calls. rewrite List.filter_app, length_app. reflexivity. Qed.

Lemma count_polls_map_ApplyMidi (es : list MidiMessage) :
  count_calls is_poll (map ApplyMidi es) = 0%nat.
Proof. induction es as [| e es IH]; [reflexivity|]. exact IH. Qed.

Lemma frame_counter (fuel : nat) (i : Z) st st' :
  0 <= pos st <= BLOCK_SIZE -> frame BLOCK_SIZE fuel i st = Done st' ->
  0 <= pos st' <= BLOCK_SIZE.
Proof.
  intros Hpos. unfold frame, block_boundary.
  destruct (Z.leb_spec BLOCK_SIZE (pos st)) as [Hle | Hlt].
  - case_outcome (drain fuel st) as st1 Hd.
    intros [= <-]. simpl. unfold Int32.max_int in *.
    change (Int32.add 0 1) with 1. lia.
  - simpl. intros [= <-]. simpl. unfold Int32.add.
    rewrite wrap_small; unfold Int32.min_int, Int32.max_int in *; lia.
Qed.

Lemma frames_counter (fuel n : nat) :
  forall (i : Z) st st',
    0 <= pos st <= BLOCK_SIZE -> frames BLOCK_SIZE fuel n i st = Done st' ->
    0 <= pos st' <= BLOCK_SIZE.
Proof.
  induction n as [| n IH]; intros i st st' Hpos; simpl.
  - intros [= <-]. exact Hpos.
  - case_outcome (frame BLOCK_SIZE fuel i st) as st1 Hf.
    apply IH. apply (frame_counter _ _ _ _ Hpos Hf).
Qed.

(** In every reachable state the sample counter lies between zero and
    [BLOCK_SIZE]. *)
Lemma reachable_counter (empty : MidiMessage) st :
  reachable BLOCK_SIZE empty st -> 0 <= pos st <= BLOCK_SIZE.
Proof.
  induction 1 as [| st m st' Hreach IH Hpush | st st' Hreach IH Hstep
                  | st fuel n st' Hreach IH Hcb].
  - simpl. lia.
  - assert (Hinv := reachable_ring_inv empty st Hreach).
    rewrite (push_spec st m Hinv) in Hpush. injection Hpush as <-. exact IH.
  - assert (Hinv := reachable_ring_inv empty st Hreach).
    destruct (drain_step_spec st Hinv) as (m & _ & Heq).
    rewrite Heq in Hstep. injection Hstep as <-. exact IH.
  - unfold audioDeviceIOCallbackWithContext in Hcb.
    apply (frames_counter _ _ _ (call ProcessBlockOSC st) _ IH Hcb).
Qed.

(** The [for] loop of the callback, frame by frame. *)
Lemma frames_spec (fuel : nat) (Hfuel : (Z.to_nat midiBufferSz <= fuel)%nat) (n : nat) :
  forall (i : Z) st,
    ring_inv st -> 0 <= pos st <= BLOCK_SIZE ->
    exists st' seg,
      frames BLOCK_SIZE fuel n i st = Done st' /\
      calls st' = calls st ++ seg /\
      block_aligned BLOCK_SIZE (pos st) seg = true /\
      count_calls is_poll seg = 0%nat /\
      applied seg = (if BLOCK_SIZE - pos st <? Z.of_nat n then pending st else []) /\
      midiBuffer st' = midiBuffer st /\ midiWP st' = midiWP st /\
      midiRP st' = (if BLOCK_SIZE - pos st <? Z.of_nat n then midiWP st else midiRP st) /\
      0 <= pos st' <= BLOCK_SIZE.
Proof.
  induction n as [| n IH]; intros i st Hinv Hpos.
  - exists st, []. simpl. rewrite app_nil_r.
    destruct (Z.ltb_spec (BLOCK_SIZE - pos st) (Z.of_nat 0)) as [Hlt | _]; [lia|].
    repeat split; auto; lia.
  - cbn [frames].
    destruct (Z_le_gt_dec BLOCK_SIZE (pos st)) as [Hle | Hgt].
    + rewrite (frame_boundary fuel i st Hinv Hfuel Hle). cbn [bind].
      set (st1 := mkState _ _ _ _ _).
      assert (Hinv1 : ring_inv st1).
      { apply (ring_inv_fields st); auto; apply Hinv. }
      destruct (IH (i + 1) st1 Hinv1)
        as (st' & seg & Hrun & Hcalls & Hmon & Hpolls & Happ & Hbuf & Hwp & Hrp & Hpos').
      { simpl. lia. }
      exists st', (map ApplyMidi (pending st) ++ Process :: WriteFrame i 0 :: seg).
      destruct (Z.ltb_spec (BLOCK_SIZE - pos st) (Z.of_nat (S n))) as [_ | Hge]; [|lia].
      split; [exact Hrun|]. split.
      { rewrite Hcalls. simpl. rewrite <- !app_assoc. reflexivity. }
      split; [apply block_aligned_boundary; [exact Hle | exact Hmon]|].
      split.
      { rewrite count_calls_app, count_polls_map_ApplyMidi. exact Hpolls. }
      split.
      { rewrite applied_app, applied_map_ApplyMidi.
        change (applied (Process :: WriteFrame i 0 :: seg)) with (applied seg).
        rewrite Happ, (pending_nil st1) by reflexivity.
        destruct (_ <? _); apply app_nil_r. }
      split; [exact Hbuf|]. split; [exact Hwp|]. split; [|exact Hpos'].
      rewrite Hrp. destruct (_ <? _); reflexivity.
    + rewrite (frame_fill fuel i st) by lia. cbn [bind].
      set (st1 := mkState _ _ _ _ _).
      destruct (IH (i + 1) st1 Hinv)
        as (st' & seg & Hrun & Hcalls & Hmon & Hpolls & Happ & Hbuf & Hwp & Hrp & Hpos').
      { simpl. lia. }
      exists st', (WriteFrame i (pos st) :: seg).
      assert (Hcond : (BLOCK_SIZE - pos st1 <? Z.of_nat n)
                      = (BLOCK_SIZE - pos st <? Z.of_nat (S n))).
      { simpl. destruct (Z.ltb_spec (BLOCK_SIZE - (pos st + 1)) (Z.of_nat n));
          destruct (Z.ltb_spec (BLOCK_SIZE - pos st) (Z.of_nat (S n))); lia. }
      rewrite Hcond in Happ, Hrp.
      split; [exact Hrun|]. split.
      { rewrite Hcalls. simpl. rewrite <- app_assoc. reflexivity. }
      split.
      { simpl. rewrite Z.eqb_refl.
        destruct (Z.ltb_spec (pos st) BLOCK_SIZE) as [_ | Hge]; [|lia]. exact Hmon. }
      repeat split; auto; lia.
Qed.

(** C3.  A callback entered in any reachable state returns, and the calls
    it makes after the poll pass the monitor [block_aligned]: [applyMidi] is
    called only once the counter has reached [BLOCK_SIZE], never between two
    frames of a block; such calls are followed by [process], and [process]
    by the frame read at counter zero.  If the callback reaches a boundary,
    the messages applied are exactly those pending at entry, oldest first,
    and the read cursor ends on the write cursor; otherwise nothing is
    applied and the read cursor stays. *)
Theorem midi_applied_only_at_block_boundary
    (empty : MidiMessage) (fuel : nat) (numSamples : Z) st :
  reachable BLOCK_SIZE empty st -> (4096 <= fuel)%nat ->
  exists st' seg,
    audioDeviceIOCallbackWithContext BLOCK_SIZE fuel numSamples st = Done st' /\
    calls st' = calls st ++ ProcessBlockOSC :: seg /\
    block_aligned BLOCK_SIZE (pos st) seg = true /\
    applied seg = (if BLOCK_SIZE - pos st <? numSamples then pending st else []) /\
    midiRP st' = (if BLOCK_SIZE - pos st <? numSamples then midiWP st' else midiRP st) /\
    0 <= pos st' <= BLOCK_SIZE.
Proof.
  intros Hreach Hfuel.
  assert (Hinv := reachable_ring_inv empty st Hreach).
  assert (Hpos := reachable_counter empty st Hreach).
  unfold audioDeviceIOCallbackWithContext.
  destruct (frames_spec fuel Hfuel (Z.to_nat numSamples) 0 (call ProcessBlockOSC st))
    as (st' & seg & Hrun & Hcalls & Hmon & _ & Happ & _ & Hwp & Hrp & Hpos');
    [exact Hinv | exact Hpos |].
  assert (Hcond : (BLOCK_SIZE - pos st <? Z.of_nat (Z.to_nat numSamples))
                  = (BLOCK_SIZE - pos st <? numSamples)).
  { destruct (Z.ltb_spec (BLOCK_SIZE - pos st) (Z.of_nat (Z.to_nat numSamples)));
      destruct (Z.ltb_spec (BLOCK_SIZE - pos st) numSamples); lia. }
  simpl in Happ, Hrp, Hmon, Hcalls, Hwp. rewrite Hcond in Happ, Hrp.
  exists st', seg. split; [exact Hrun|]. split.
  { rewrite Hcalls, <- app_assoc. reflexivity. }
  split; [exact Hmon|]. split; [exact Happ|]. split; [|exact Hpos'].
  rewrite Hrp, Hwp. reflexivity.
Qed.

(** C5, as the code has it.  A callback entered in any reachable state
    polls for OSC work exactly once: [processBlockOSC] is the first call it
    makes, before the first frame and before every synthesis step of that
    invocation, and no later call of the invocation is a poll. *)
Theorem osc_poll_once_at_callback_entry
    (empty : MidiMessage) (fuel : nat) (numSamples : Z) st :
  reachable BLOCK_SIZE empty st -> (4096 <= fuel)%nat ->
  exists st' seg,
    audioDeviceIOCallbackWithContext BLOCK_SIZE fuel numSamples st = Done st' /\
    calls st' = calls st ++ ProcessBlockOSC :: seg /\
    count_calls is_poll seg = 0%nat.
Proof.
  intros Hreach Hfuel.
  assert (Hinv := reachable_ring_inv empty st Hreach).
  assert (Hpos := reachable_counter empty st Hreach).
  unfold audioDeviceIOCallbackWithContext.
  destruct (frames_spec fuel Hfuel (Z.to_nat numSamples) 0 (call ProcessBlockOSC st))
    as (st' & seg & Hrun & Hcalls & _ & Hpolls & _); [exact Hinv | exact Hpos |].
  exists st', seg. split; [exact Hrun|]. split; [|exact Hpolls].
  simpl in Hcalls. rewrite Hcalls, <- app_assoc. reflexivity.
Qed.

End CallbackProofs.

(** ** The callback on concrete rings *)

(** Three producer calls on the object as constructed lead to
    [three_pending]. *)
Lemma three_pending_reachable : reachable 32 0%nat three_pending.
Proof.
  apply (reach_push 32 0%nat (mkState ([60; 64] ++ replicate 4094 0)%nat 2 0 32 [])
                    67%nat); [|vm_compute; reflexivity].
  apply (reach_push 32 0%nat (mkState ([60] ++ replicate 4095 0)%nat 1 0 32 [])
                    64%nat); [|vm_compute; reflexivity].
  apply (reach_push 32 0%nat (init 32 0%nat) 60%nat); [|vm_compute; reflexivity].
  apply reach_init.
Qed.

Lemma cursors_always_index_a_slot_witness :
  reachable 32 0%nat (init 32 0%nat) /\
  (0 <= midiWP (init 32 0%nat) <= 4095 /\ 0 <= midiRP (init 32 0%nat) <= 4095 /\
   length (midiBuffer (init 32 0%nat)) = 4096%nat) /\
  (forall m, exists st',
      handleIncomingMidiMessage m (init 32 0%nat) = Done st' /\
      0 <= midiWP st' <= 4095 /\ 0 <= midiRP st' <= 4095 /\
      midiWP st' = (midiWP (init 32 0%nat) + 1) mod 4096 /\
      midiRP st' = midiRP (init 32 0%nat)) /\
  (exists st',
      drain_step (init 32 0%nat) = Done st' /\
      0 <= midiWP st' <= 4095 /\ 0 <= midiRP st' <= 4095 /\
      midiRP st' = (midiRP (init 32 0%nat) + 1) mod 4096 /\
      midiWP st' = midiWP (init 32 0%nat) /\
      midiBuffer st' = midiBuffer (init 32 0%nat)).
Proof.
  split; [apply reach_init|].
  apply (cursors_always_index_a_slot 32 0%nat (init 32 0%nat)). apply reach_init.
Defined.

Lemma drain_applies_last_pushes_mod_capacity_witness :
  ring_inv (init 32 0%nat) /\
  midiRP (init 32 0%nat) = midiWP (init 32 0%nat) /\
  length (newest_mod_capacity [60; 64; 67]%nat) = (3 mod 4096)%nat /\
  ((3 <= 4095)%nat -> newest_mod_capacity [60; 64; 67]%nat = [60; 64; 67]%nat) /\
  exists st1 st2,
    push_all [60; 64; 67]%nat (init 32 0%nat) = Done st1 /\
    (forall fuel : nat, (4096 <= fuel)%nat -> drain fuel st1 = Done st2) /\
    calls st2 = map ApplyMidi (newest_mod_capacity [60; 64; 67]%nat) /\
    midiRP st2 = midiWP st2.
Proof.
  split; [apply init_ring_inv|]. split; [reflexivity|].
  apply (drain_applies_last_pushes_mod_capacity [60; 64; 67]%nat (init 32 0%nat));
    [apply init_ring_inv | reflexivity].
Defined.

(** C1, as the specification states it, fails when exactly 4096 messages are
    pushed: the write cursor is back on the read cursor and the drain pass
    applies nothing, where the statement expects all 4096 messages. *)
Lemma drain_after_4096_pushes_applies_nothing :
  drained_after_pushes 32 0%nat (seq 0 4096) = Done [] /\
  ~ drain_applies_newest_min 32 0%nat (seq 0 4096).
Proof.
  assert (H : drained_after_pushes 32 0%nat (seq 0 4096) = Done [])
    by (vm_compute; reflexivity).
  split; [exact H|]. unfold drain_applies_newest_min. rewrite H. intros Hclaim.
  apply (f_equal (fun r => match r with Done l => length l | _ => 0%nat end)) in Hclaim.
  vm_compute in Hclaim. discriminate Hclaim.
Qed.

Lemma midi_applied_only_at_block_boundary_witness :
  reachable 32 0%nat three_pending /\ (4096 <= 4096)%nat /\
  exists st' seg,
    audioDeviceIOCallbackWithContext 32 4096 64 three_pending = Done st' /\
    calls st' = calls three_pending ++ ProcessBlockOSC :: seg /\
    block_aligned 32 (pos three_pending) seg = true /\
    applied seg = (if 32 - pos three_pending <? 64 then pending three_pending else []) /\
    midiRP st' = (if 32 - pos three_pending <? 64 then midiWP st' else midiRP three_pending) /\
    0 <= pos st' <= 32.
Proof.
  split; [apply three_pending_reachable|]. split; [lia|].
  apply (midi_applied_only_at_block_boundary 32) with (empty := 0%nat); try lia.
  - unfold Int32.max_int. lia.
  - apply three_pending_reachable.
Defined.

Example three_pending_are_applied_first :
  firstn 5 (calls_of (audioDeviceIOCallbackWithContext 32 4096 64 three_pending)) =
    [ProcessBlockOSC; ApplyMidi 60; ApplyMidi 64; ApplyMidi 67; Process]%nat.
Proof. vm_compute. reflexivity. Qed.

Lemma osc_poll_once_at_callback_entry_witness :
  reachable 32 0%nat three_pending /\ (4096 <= 4096)%nat /\
  exists st' seg,
    audioDeviceIOCallbackWithContext 32 4096 64 three_pending = Done st' /\
    calls st' = calls three_pending ++ ProcessBlockOSC :: seg /\
    count_calls is_poll seg = 0%nat.
Proof.
  split; [apply three_pending_reachable|]. split; [lia|].
  apply (osc_poll_once_at_callback_entry 32) with (empty := 0%nat); try lia.
  - unfold Int32.max_int. lia.
  - apply three_pending_reachable.
Defined.

(** C5, as the specification states it, fails for a callback of 64 frames
    with blocks of 32 frames: it runs two synthesis steps and polls once, so
    the second synthesis step is not preceded by a poll of its own. *)
Lemma second_block_is_not_polled :
  count_calls is_process
    (calls_of (audioDeviceIOCallbackWithContext 32 4096 64 three_pending)) = 2%nat /\
  count_calls is_poll
    (calls_of (audioDeviceIOCallbackWithContext 32 4096 64 three_pending)) = 1%nat /\
  ~ poll_precedes_every_block 32 4096 64 three_pending.
Proof.
  split; [vm_compute; reflexivity|]. split; [vm_compute; reflexivity|].
  unfold poll_precedes_every_block. vm_compute. discriminate.
Qed.

(** ** Strings and streams *)

Import OSC.

Lemma str_app_nil_r (a : string) : a +:+ EmptyString = a.
Proof.
  induction a as [| ch a IH]; [reflexivity|].
  change (String ch (a +:+ EmptyString) = String ch a). f_equal. exact IH.
Qed.

Lemma str_app_assoc (a b c : string) : (a +:+ b) +:+ c = a +:+ (b +:+ c).
Proof.
  induction a as [| ch a IH]; [reflexivity|].
  change (String ch ((a +:+ b) +:+ c) = String ch (a +:+ (b +:+ c))).
  f_equal. exact IH.
Qed.

Lemma split_on_nonempty (d : ascii) (s : string) : split_on d s <> [].
Proof.
  destruct s as [| c s]; simpl; [discriminate|].
  destruct (Ascii.eqb c d); [discriminate|].
  destruct (split_on d s); discriminate.
Qed.

(** Reading up to the delimiter yields the first segment and leaves the
    others. *)
Lemma up_to_delim_split (d : ascii) (s : string) :
  match up_to_delim d s with
  | Some (tok, rest) => split_on d s = tok :: split_on d rest
  | None => split_on d s = [s]
  end.
Proof.
  induction s as [| c s IH]; simpl; [reflexivity|].
  destruct (Ascii.eqb c d); [reflexivity|].
  destruct (up_to_delim d s) as [[tok rest] |].
  - rewrite IH. reflexivity.
  - rewrite IH. reflexivity.
Qed.

(** [getline] hands out the segments of the stream one by one. *)
Lemma getline_next (d : ascii) (split : istringstream) (old t : string) (ts : list string) :
  stream_tokens d split = t :: ts ->
  exists split', getline split old d = (t, split') /\ stream_tokens d split' = ts.
Proof.
  destruct split as [s |]; simpl; [|discriminate].
  intros Hsplit. assert (H := up_to_delim_split d s).
  destruct (up_to_delim d s) as [[tok rest] |].
  - rewrite Hsplit in H. injection H as Ht Hts. subst t ts.
    exists (Some rest). auto.
  - rewrite Hsplit in H. injection H as Ht Hts. subst t ts.
    exists None. auto.
Qed.

(** On an exhausted stream [getline] leaves the variable as it was. *)
Lemma getline_exhausted (d : ascii) (split : istringstream) (old : string) :
  stream_tokens d split = [] -> getline split old d = (old, None).
Proof.
  destruct split as [s |]; [|reflexivity].
  simpl. intros H. exfalso. exact (split_on_nonempty d s H).
Qed.

(** An address whose first segment is empty and that has a second segment
    begins with the separator. *)
Lemma leading_separator (addr t : string) (ts : list string) :
  split_on slash addr = EmptyString :: t :: ts -> string_at addr 0 = Done slash.
Proof.
  destruct addr as [| c addr]; simpl; [discriminate|].
  destruct (Ascii.eqb_spec c slash) as [-> | Hne]; [reflexivity|].
  destruct (split_on slash addr); discriminate.
Qed.

(** A character array that holds the C string of [s] and then a NUL reads
    back as that C string. *)
Lemma c_string_of_padded (s : string) (rest : list ascii) :
  c_string_of (c_str s ++ NUL :: rest) = string_of_list_ascii (c_str s).
Proof.
  induction s as [| c s IH]; [reflexivity|].
  simpl c_str. destruct (Ascii.eqb c NUL) eqn:Hc; [reflexivity|].
  simpl. rewrite Hc, IH. reflexivity.
Qed.

Lemma nul_free_c_str (s : string) :
  nul_free s = true -> c_str s = list_ascii_of_string s.
Proof.
  induction s as [| c s IH]; [reflexivity|].
  simpl. destruct (Ascii.eqb c NUL); [discriminate|].
  simpl. intros H. rewrite IH by exact H. reflexivity.
Qed.

Lemma length_list_ascii_of_string (s : string) :
  length (list_ascii_of_string s) = String.length s.
Proof. induction s as [| c s IH]; [reflexivity|]. simpl. f_equal. exact IH. Qed.

(** ** The OSC dispatcher *)

Section DispatcherProofs.

Context {Float32 ParamRef : Type}.
Variable FILENAME_MAX : nat.
Variable parameterFromOSCName : string -> option ParamRef.
Variable fs_exists : string -> option bool.
Variable is_relative : string -> bool.
Variable path_div : string -> string -> string.
Variable datapath : string.
Variable to_string_float : Float32 -> string.
Variable sender_send : string -> string -> bool.

Implicit Types (message om : @OSCMessage Float32) (w : @Synth Float32 ParamRef).

Abbreviation received :=
  (oscMessageReceived FILENAME_MAX parameterFromOSCName fs_exists is_relative
                      path_div datapath).
Abbreviation dispatched :=
  (dispatch FILENAME_MAX parameterFromOSCName fs_exists is_relative
            path_div datapath).

Lemma arg_at_middle om (pre : list OSCArgument) (a : OSCArgument) rest :
  arguments om = pre ++ a :: rest -> arg_at om (Z.of_nat (length pre)) = Done a.
Proof.
  intros Hargs. unfold arg_at, size. rewrite Hargs, length_app. simpl length.
  destruct (Z.leb_spec 0 (Z.of_nat (length pre))) as [_ | Hneg]; [|lia].
  destruct (Z.ltb_spec (Z.of_nat (length pre))
              (Z.of_nat (length pre + S (length rest)))) as [_ | Hge]; [|lia].
  simpl. rewrite Nat2Z.id, list_lookup_middle by reflexivity. reflexivity.
Qed.

Lemma getWholeString_loop_spec om :
  forall (rest pre : list OSCArgument) (acc : string),
    arguments om = pre ++ rest ->
    getWholeString_loop (length rest) (Z.of_nat (length pre)) om acc =
      Done (acc +:+ joined_with_spaces (map getString rest)).
Proof.
  induction rest as [| a rest IH]; intros pre acc Hargs.
  - simpl. rewrite str_app_nil_r. reflexivity.
  - cbn [length getWholeString_loop]. rewrite (arg_at_middle om pre a rest Hargs).
    cbn [bind].
    assert (Hargs' : arguments om = (pre ++ [a]) ++ rest)
      by (rewrite <- app_assoc; exact Hargs).
    assert (Hidx : Z.of_nat (length pre) + 1 = Z.of_nat (length (pre ++ [a])))
      by (rewrite length_app; simpl; lia).
    assert (Hsize : size om = Z.of_nat (length pre) + 1 + Z.of_nat (length rest)).
    { unfold size. rewrite Hargs, length_app. simpl length. lia. }
    rewrite Hsize, Hidx.
    destruct rest as [| b rest].
    + match goal with
      | |- context [?x <? ?y] => destruct (Z.ltb_spec x y) as [Hlt | _]
      end; [simpl length in Hlt; lia|].
      rewrite (IH _ _ Hargs'). simpl. rewrite str_app_nil_r. reflexivity.
    + match goal with
      | |- context [?x <? ?y] => destruct (Z.ltb_spec x y) as [_ | Hge]
      end; [|simpl length in Hge; lia].
      rewrite (IH _ _ Hargs'). f_equal.
      change (joined_with_spaces (map getString (a :: b :: rest)))
        with (getString a +:+ " " +:+ joined_with_spaces (map getString (b :: rest))).
      rewrite !str_app_assoc. reflexivity.
Qed.

(** [getWholeString] returns, and what it returns is the string values of
    the arguments joined with single spaces. *)
Lemma getWholeString_spec om :
  getWholeString om = Done (joined_with_spaces (map getString (arguments om))).
Proof.
  unfold getWholeString, size. rewrite Nat2Z.id.
  apply (getWholeString_loop_spec om (arguments om) [] EmptyString). reflexivity.
Qed.

(** An address with an empty first segment passes the guard, and the
    second segment is what the chain of comparisons sees. *)
Lemma received_dispatch message w (t1 : string) (ts : list string) :
  split_on slash (addressPattern message) = EmptyString :: t1 :: ts ->
  exists split1,
    stream_tokens slash split1 = ts /\
    received message w = dispatched message (addressPattern message) t1 split1 w.
Proof.
  intros Hsplit. unfold oscMessageReceived.
  rewrite (leading_separator _ _ _ Hsplit). cbn [bind].
  rewrite Ascii.eqb_refl. cbn [negb].
  destruct (getline_next slash (Some (addressPattern message)) EmptyString
                         EmptyString (t1 :: ts) Hsplit) as (split0 & -> & Hts0).
  destruct (getline_next slash split0 EmptyString t1 ts Hts0) as (split1 & -> & Hts1).
  exists split1. split; [exact Hts1 | reflexivity].
Qed.

Lemma received_patch message w (t2 : string) (ts : list string) :
  split_on slash (addressPattern message) = EmptyString :: "patch" :: t2 :: ts ->
  received message w = patch_branch FILENAME_MAX message t2 w.
Proof.
  intros Hsplit.
  destruct (received_dispatch message w _ _ Hsplit) as (split1 & Hts & ->).
  unfold dispatch. simpl (String.eqb _ _).
  destruct (getline_next slash split1 EmptyString t2 ts Hts) as (split2 & -> & _).
  reflexivity.
Qed.

Lemma received_tuning message w (t2 : string) (ts : list string) :
  split_on slash (addressPattern message) = EmptyString :: "tuning" :: t2 :: ts ->
  exists split2,
    stream_tokens slash split2 = ts /\
    received message w =
      tuning_branch fs_exists is_relative path_div datapath message t2 split2 w
        (joined_with_spaces (map getString (arguments message))).
Proof.
  intros Hsplit.
  destruct (received_dispatch message w _ _ Hsplit) as (split1 & Hts & ->).
  unfold dispatch. simpl (String.eqb _ _). rewrite getWholeString_spec. cbn [bind].
  destruct (getline_next slash split1 EmptyString t2 ts Hts) as (split2 & -> & Hts2).
  exists split2. split; [exact Hts2 | reflexivity].
Qed.

(** An address that is not empty and does not begin with the separator is
    dropped: the state, effect log included, is returned as it was. *)
Lemma address_without_separator_is_dropped (c : ascii) (rest : string)
    (args : list OSCArgument) w :
  c <> slash -> received (mkMessage (String c rest) args) w = Done w.
Proof.
  intros Hne. unfold oscMessageReceived. simpl.
  destruct (Ascii.eqb_spec c slash) as [Heq | _]; [contradiction | reflexivity].
Qed.

(** C2.  For the empty address pattern [addr.at(0)] throws
    [std::out_of_range] where the guard was meant to return: the handler
    is left by an exception. *)
Theorem empty_address_throws_out_of_range (args : list OSCArgument) w :
  received (mkMessage EmptyString args) w = Thrown "std::out_of_range".
Proof. reflexivity. Qed.

(** What the [param] branch does, case by case. *)
Lemma param_message_cases message w (ts : list string) :
  split_on slash (addressPattern message) = EmptyString :: "param" :: ts ->
  received message w =
    match parameterFromOSCName (addressPattern message) with
    | None => Done w
    | Some p =>
        match arguments message with
        | [] => OutOfBounds
        | ArgFloat32 v :: _ => Done (effect (OscRingBufPush p v) w)
        | _ :: _ => Done w
        end
    end.
Proof.
  intros Hsplit.
  destruct (received_dispatch message w _ _ Hsplit) as (split1 & _ & ->).
  unfold dispatch. simpl (String.eqb _ _). cbv iota. unfold param_branch.
  destruct (parameterFromOSCName (addressPattern message)) as [p |]; [|reflexivity].
  unfold arg_at, size. destruct (arguments message) as [| a args]; [reflexivity|].
  simpl length. simpl (_ !! _).
  destruct (Z.ltb_spec 0 (Z.of_nat (S (length args)))) as [_ | Hge]; [|lia].
  simpl. destruct a; reflexivity.
Qed.

(** C6, as the code has it.  A patch/load message stores, between the
    lock and the unlock of [patchLoadSpawnMutex], the first [FILENAME_MAX]
    characters of [dataStr] padded with NUL, where [dataStr] is the string
    values of the arguments joined with single spaces followed by the
    extension, and sets [has_patchid_file].  When [dataStr] is shorter
    than [FILENAME_MAX] the stored path is [dataStr]; otherwise it is cut
    and left without terminator.  What the slot held before, a request not
    yet consumed included, does not matter: the whole array and the flag
    are overwritten. *)
Theorem patch_load_stores_request message w (ts : list string) :
  split_on slash (addressPattern message) = EmptyString :: "patch" :: "load" :: ts ->
  length (patchid_file w) = FILENAME_MAX ->
  exists w',
    received message w = Done w' /\
    patchid_file w' =
      take FILENAME_MAX (c_str (joined_arguments message +:+ ".fxp"))
      ++ replicate (FILENAME_MAX - length (c_str (joined_arguments message +:+ ".fxp")))
                   NUL /\
    length (patchid_file w') = FILENAME_MAX /\
    has_patchid_file w' = true /\
    (nul_free (joined_arguments message +:+ ".fxp") = true ->
     (String.length (joined_arguments message +:+ ".fxp") < FILENAME_MAX)%nat ->
     c_string_of (patchid_file w') = joined_arguments message +:+ ".fxp") /\
    exists es, effects w' = effects w ++ es /\ stores_under_mutex false es = true.
Proof.
  intros Hsplit Hlen. unfold joined_arguments.
  set (dataStr := joined_with_spaces (map getString (arguments message)) +:+ ".fxp").
  rewrite (received_patch message w _ _ Hsplit).
  unfold patch_branch. simpl (String.eqb _ _). cbv iota.
  rewrite getWholeString_spec. cbn [bind]. fold dataStr.
  unfold strncpy. cbn [effect patchid_file]. rewrite Hlen, Nat.leb_refl. cbn [bind].
  rewrite drop_ge by lia. rewrite app_nil_r.
  eexists. split; [reflexivity|]. cbn.
  split; [reflexivity|]. split.
  { rewrite length_app, length_take, length_replicate. lia. }
  split; [reflexivity|]. split.
  - intros Hnul Hshort.
    assert (Hc : length (c_str dataStr) = String.length dataStr).
    { rewrite (nul_free_c_str _ Hnul). apply length_list_ascii_of_string. }
    rewrite take_ge by lia.
    replace (FILENAME_MAX - length (c_str dataStr))%nat
      with (S (FILENAME_MAX - length (c_str dataStr) - 1)) by lia.
    simpl replicate. rewrite c_string_of_padded, (nul_free_c_str _ Hnul).
    apply string_of_list_ascii_of_string.
  - eexists. split.
    + rewrite <- !app_assoc. reflexivity.
    + reflexivity.
Qed.


(** C8, as the code has it.  A patch/save message makes one [callAsync]
    and nothing else.  The body handed over, when it runs, joins the
    string values of the arguments with single spaces: if the joined
    string is empty, as it is for a message without arguments, it calls
    [savePatch(false, true)]; otherwise it calls [savePatchToPath] on the
    joined string followed by the extension. *)
Theorem patch_save_hands_over message w (ts : list string) :
  split_on slash (addressPattern message) = EmptyString :: "patch" :: "save" :: ts ->
  received message w = Done (effect (CallAsync (SavePatchTask message)) w) /\
  (arguments message = [] -> joined_arguments message = EmptyString) /\
  forall w1,
    run_task to_string_float sender_send (SavePatchTask message) w1 =
      Done (effect (if String.eqb (joined_arguments message) EmptyString
                    then SavePatch false true
                    else SavePatchToPath (joined_arguments message +:+ ".fxp")) w1).
Proof.
  intros Hsplit. unfold joined_arguments.
  set (dataStr := joined_with_spaces (map getString (arguments message))).
  split; [|split].
  - rewrite (received_patch message w _ _ Hsplit). reflexivity.
  - unfold dataStr. intros ->. reflexivity.
  - intros w1. unfold run_task. rewrite getWholeString_spec. cbn [bind].
    fold dataStr. destruct (String.eqb dataStr EmptyString); reflexivity.
Qed.

Lemma sent_app (es1 es2 : list (@Effect Float32 ParamRef)) :
  sent (es1 ++ es2) = sent es1 ++ sent es2.
Proof. unfold sent. apply omap_app. Qed.

Lemma sender_transmit_spec (addr value : string) w :
  exists es,
    effects (sender_transmit sender_send addr value w) = effects w ++ es /\
    sent es = [(addr, value)] /\
    param_ptr (sender_transmit sender_send addr value w) = param_ptr w.
Proof.
  unfold sender_transmit. destruct (sender_send addr value).
  - exists [SenderSend addr value]. auto.
  - exists [SenderSend addr value; Cout "Error: could not send OSC message."].
    simpl. rewrite <- app_assoc. auto.
Qed.

Lemma param_at_middle w (pre : list Param) (p : Param) rest :
  param_ptr w = pre ++ p :: rest -> param_at w (Z.of_nat (length pre)) = Done p.
Proof.
  intros Hps. unfold param_at. rewrite Hps, length_app. simpl length.
  destruct (Z.leb_spec 0 (Z.of_nat (length pre))) as [_ | Hneg]; [|lia].
  destruct (Z.ltb_spec (Z.of_nat (length pre))
              (Z.of_nat (length pre + S (length rest)))) as [_ | Hge]; [|lia].
  simpl. rewrite Nat2Z.id, list_lookup_middle by reflexivity. reflexivity.
Qed.

(** The loop of the parameter dump sends one message per parameter, in
    order. *)
Lemma sendAllParams_loop_spec :
  forall (rest pre : list Param) (valStr : string) w,
    param_ptr w = pre ++ rest ->
    exists w' es,
      sendAllParams_loop to_string_float sender_send
        (length rest) (Z.of_nat (length pre)) valStr w = Done w' /\
      effects w' = effects w ++ es /\
      sent es = formatted to_string_float valStr rest.
Proof.
  induction rest as [| p rest IH]; intros pre valStr w Hps.
  - exists w, []. simpl. rewrite app_nil_r. auto.
  - cbn [length sendAllParams_loop]. rewrite (param_at_middle w pre p rest Hps).
    cbn [bind].
    destruct (sender_transmit_spec (oscName p) (format_value to_string_float p valStr) w)
      as (es1 & Hes1 & Hsent1 & Hps1).
    replace (Z.of_nat (length pre) + 1) with (Z.of_nat (length (pre ++ [p])))
      by (rewrite length_app; simpl; lia).
    destruct (IH (pre ++ [p]) (format_value to_string_float p valStr)
                 (sender_transmit sender_send (oscName p)
                    (format_value to_string_float p valStr) w))
      as (w' & es & Hrun & Hes & Hsent).
    { rewrite Hps1, Hps, <- app_assoc. reflexivity. }
    exists w', (es1 ++ es). split; [exact Hrun|]. split.
    + rewrite Hes, Hes1, <- app_assoc. reflexivity.
    + rewrite sent_app, Hsent1, Hsent. reflexivity.
Qed.

Lemma formatted_lookup (ps : list Param) :
  forall (valStr : string) (i : nat) (p : Param),
    ps !! i = Some p ->
    exists prev, formatted to_string_float valStr ps !! i
                 = Some (oscName p, format_value to_string_float p prev).
Proof.
  induction ps as [| q ps IH]; intros valStr i p Hi; [discriminate|].
  destruct i as [| i].
  - injection Hi as ->. exists valStr. reflexivity.
  - simpl. apply IH. exact Hi.
Qed.

Lemma formatted_length (ps : list Param) :
  forall valStr : string, length (formatted to_string_float valStr ps) = length ps.
Proof.
  induction ps as [| q ps IH]; intros valStr; [reflexivity|].
  simpl. f_equal. apply IH.
Qed.

(** C9.  With sending enabled, a send_all_parameters message makes one
    [callAsync].  The body handed over, run on a patch of [N] parameters,
    returns after handing exactly [N] messages to the OSC sender, the
    [i]-th addressed to the OSC name of the [i]-th parameter.  Its value
    string is [std::to_string] of the view of the value that the declared
    type selects: the decimal integer for [vt_int], the digit one or zero
    for [vt_bool], the decimal rendering of the float for [vt_float]. *)
Theorem send_all_parameters_one_message_each message w (ts : list string) :
  split_on slash (addressPattern message) = EmptyString :: "send_all_parameters" :: ts ->
  sendingOSC w = true ->
  received message w = Done (effect (CallAsync SendAllParamsTask) w) /\
  forall w1, exists w2 es,
    run_task to_string_float sender_send SendAllParamsTask w1 = Done w2 /\
    effects w2 = effects w1 ++ es /\
    length (sent es) = length (param_ptr w1) /\
    forall (i : nat) (p : Param),
      param_ptr w1 !! i = Some p ->
      exists v,
        sent es !! i = Some (oscName p, v) /\
        (valtype p = vt_int -> v = to_string_int (val_i (val p))) /\
        (valtype p = vt_bool -> v = if val_b (val p) then "1" else "0") /\
        (valtype p = vt_float -> v = to_string_float (val_f (val p))).
Proof.
  intros Hsplit Hsending. split.
  - destruct (received_dispatch message w _ _ Hsplit) as (split1 & _ & ->).
    unfold dispatch. simpl (String.eqb _ _). cbv iota.
    unfold sendAllParams. rewrite Hsending. reflexivity.
  - intros w1. unfold run_task.
    destruct (sendAllParams_loop_spec (param_ptr w1) [] EmptyString w1 eq_refl)
      as (w2 & es & Hrun & Hes & Hsent).
    exists w2, es. split; [exact Hrun|]. split; [exact Hes|].
    rewrite Hsent. split; [apply formatted_length|].
    intros i p Hi.
    destruct (formatted_lookup (param_ptr w1) EmptyString i p Hi) as (prev & Hv).
    eexists. split; [exact Hv|]. unfold format_value.
    repeat split; intros ->; try reflexivity.
    destruct (val_b (val p)); reflexivity.
Qed.

End DispatcherProofs.

(** ** The dispatcher on concrete messages *)

Example malformed_address_is_dropped :
  sample_received (mkMessage "param/a/osc/1/octave" [ArgFloat32 1]) sample_synth
  = Done sample_synth.
Proof. reflexivity. Qed.

Example param_with_float_is_queued :
  sample_received (mkMessage "/param/a/filter/1/cutoff" [ArgFloat32 500]) sample_synth
  = Done (effect (OscRingBufPush 2%nat 500) sample_synth).
Proof. reflexivity. Qed.

Example param_with_float_queues_one_entry :
  queue_entries
    (match sample_received (mkMessage "/param/a/filter/1/cutoff" [ArgFloat32 500])
                           sample_synth with
     | Done w => effects w
     | _ => []
     end)
  = [(2%nat, 500)].
Proof. reflexivity. Qed.

Example param_unknown_is_dropped :
  sample_received (mkMessage "/param/doesnotexist" [ArgFloat32 500]) sample_synth
  = Done sample_synth.
Proof. reflexivity. Qed.

Example param_with_string_is_dropped :
  sample_received (mkMessage "/param/a/filter/1/cutoff" [ArgString "0.5"]) sample_synth
  = Done sample_synth.
Proof. reflexivity. Qed.

(** C4.  A message addressed to a parameter of the patch and carrying no
    argument is not dropped: [message[0]] is evaluated on an empty argument
    list, outside its range. *)
Theorem param_without_arguments_reads_out_of_bounds :
  sample_table "/param/a/filter/1/cutoff" = Some 2%nat /\
  sample_received (mkMessage "/param/a/filter/1/cutoff" []) sample_synth = OutOfBounds.
Proof. split; reflexivity. Qed.

Example patch_load_Init :
  pending_request_of
    (sample_received (mkMessage "/patch/load" [ArgString "Init"]) sample_synth)
  = Some "Init.fxp".
Proof. vm_compute. reflexivity. Qed.

Example patch_load_two_words :
  pending_request_of
    (sample_received (mkMessage "/patch/load" [ArgString "Warm"; ArgString "Pad"])
                     sample_synth)
  = Some "Warm Pad.fxp".
Proof. vm_compute. reflexivity. Qed.

Example second_load_replaces_first :
  pending_request_of
    (do w1 <- sample_received (mkMessage "/patch/load" [ArgString "Init"]) sample_synth;
     sample_received (mkMessage "/patch/load" [ArgString "Lead"]) w1)
  = Some "Lead.fxp".
Proof. vm_compute. reflexivity. Qed.

Lemma patch_load_stores_request_witness :
  split_on slash (addressPattern load_Init) = EmptyString :: "patch" :: "load" :: [] /\
  length (patchid_file sample_synth) = 4096%nat /\
  exists w',
    sample_received load_Init sample_synth = Done w' /\
    patchid_file w' =
      take 4096 (c_str (joined_arguments load_Init +:+ ".fxp"))
      ++ replicate (4096 - length (c_str (joined_arguments load_Init +:+ ".fxp"))) NUL /\
    length (patchid_file w') = 4096%nat /\
    has_patchid_file w' = true /\
    (nul_free (joined_arguments load_Init +:+ ".fxp") = true ->
     (String.length (joined_arguments load_Init +:+ ".fxp") < 4096)%nat ->
     c_string_of (patchid_file w') = joined_arguments load_Init +:+ ".fxp") /\
    exists es, effects w' = effects sample_synth ++ es /\ stores_under_mutex false es = true.
Proof.
  split; [reflexivity|]. split; [reflexivity|].
  apply (patch_load_stores_request 4096 sample_table no_file every_path_relative
           sample_path_div sample_datapath load_Init sample_synth []);
    reflexivity.
Defined.

(** C6, as the specification states it, fails for a patch name of 4096
    characters: [strncpy] stores its first 4096 characters only, so the
    request does not hold the name followed by the extension. *)
Lemma long_patch_name_is_cut :
  ~ pending_path_is_joined_arguments 4096 sample_table no_file every_path_relative
      sample_path_div sample_datapath load_long_name sample_synth.
Proof.
  unfold pending_path_is_joined_arguments. intros Hclaim.
  apply (f_equal (fun o => match o with Some p => String.length p | None => 0%nat end))
    in Hclaim.
  vm_compute in Hclaim. discriminate Hclaim.
Qed.



Example patch_save_MyPatch :
  sample_run_task (SavePatchTask (mkMessage "/patch/save" [ArgString "MyPatch"]))
                  sample_synth
  = Done (effect (SavePatchToPath "MyPatch.fxp") sample_synth).
Proof. reflexivity. Qed.

Example patch_save_no_arguments :
  sample_run_task (SavePatchTask (mkMessage "/patch/save" [])) sample_synth
  = Done (effect (SavePatch false true) sample_synth).
Proof. reflexivity. Qed.

Lemma patch_save_hands_over_witness :
  split_on slash (addressPattern save_MyPatch) = EmptyString :: "patch" :: "save" :: [] /\
  sample_received save_MyPatch sample_synth
    = Done (effect (CallAsync (SavePatchTask save_MyPatch)) sample_synth) /\
  (arguments save_MyPatch = [] -> joined_arguments save_MyPatch = EmptyString) /\
  forall w1,
    sample_run_task (SavePatchTask save_MyPatch) w1 =
      Done (effect (if String.eqb (joined_arguments save_MyPatch) EmptyString
                    then SavePatch false true
                    else SavePatchToPath (joined_arguments save_MyPatch +:+ ".fxp")) w1).
Proof.
  split; [reflexivity|].
  apply (patch_save_hands_over 4096 sample_table no_file every_path_relative
           sample_path_div sample_datapath sample_to_string_float send_succeeds
           save_MyPatch sample_synth []).
  reflexivity.
Defined.

(** C8, as the specification states it, fails for a message whose only
    argument is the empty string: it has an argument, and the body still
    takes the default save instead of a direct save to the bare
    extension. *)
Lemma empty_string_argument_saves_by_default :
  arguments save_empty_string <> [] /\
  sample_run_task (SavePatchTask save_empty_string) sample_synth
    = Done (effect (SavePatch false true) sample_synth) /\
  ~ save_chosen_by_argument_count sample_to_string_float send_succeeds
      save_empty_string sample_synth.
Proof.
  split; [discriminate|]. split; [reflexivity|].
  unfold save_chosen_by_argument_count. intros Hclaim.
  apply (f_equal (fun r => match r with
                           | Done w => last (effects w)
                           | _ => None
                           end)) in Hclaim.
  vm_compute in Hclaim. discriminate Hclaim.
Qed.

Example send_all_parameters_sample :
  sent (match sample_run_task SendAllParamsTask sample_synth with
        | Done w => effects w
        | _ => []
        end)
  = [("/param/a/osc/1/octave", "3"); ("/param/a/osc/1/retrigger", "1");
     ("/param/a/filter/1/cutoff", "500")].
Proof. vm_compute. reflexivity. Qed.

Lemma send_all_parameters_one_message_each_witness :
  split_on slash (addressPattern send_all)
    = EmptyString :: "send_all_parameters" :: [] /\
  sendingOSC sample_synth = true /\
  sample_received send_all sample_synth
    = Done (effect (CallAsync SendAllParamsTask) sample_synth) /\
  forall w1, exists w2 es,
    sample_run_task SendAllParamsTask w1 = Done w2 /\
    effects w2 = effects w1 ++ es /\
    length (sent es) = length (param_ptr w1) /\
    forall (i : nat) (p : Param),
      param_ptr w1 !! i = Some p ->
      exists v,
        sent es !! i = Some (oscName p, v) /\
        (valtype p = vt_int -> v = to_string_int (val_i (val p))) /\
        (valtype p = vt_bool -> v = if val_b (val p) then "1" else "0") /\
        (valtype p = vt_float -> v = sample_to_string_float (val_f (val p))).
Proof.
  split; [reflexivity|]. split; [reflexivity|].
  apply (send_all_parameters_one_message_each 4096 sample_table no_file
           every_path_relative sample_path_div sample_datapath
           sample_to_string_float send_succeeds send_all sample_synth []);
    reflexivity.
Defined.

(** * Further properties of the playback object *)

Import PlaybackTrace.

Section TraceProofs.

Context {MidiMessage : Type}.
Variable BLOCK_SIZE : Z.
Implicit Types (st : @State MidiMessage) (cs : list (@Call MidiMessage)).

Lemma omap_ext_in {A B : Type} (f g : A -> option B) (l : list A) :
  (forall x, x ∈ l -> f x = g x) -> omap f l = omap g l.
Proof.
  induction l as [| a l IH]; intros Hfg; [reflexivity|].
  simpl. rewrite (Hfg a) by left. destruct (g a); [f_equal|];
    apply IH; intros x Hx; apply Hfg; right; exact Hx.
Qed.

Lemma pending_same_ring st st' :
  midiBuffer st' = midiBuffer st -> midiWP st' = midiWP st ->
  midiRP st' = midiRP st -> pending st' = pending st.
Proof.
  intros Hb Hw Hr. unfold pending, slot_after. rewrite Hb, Hw, Hr. reflexivity.
Qed.

Lemma unread_range st : 0 <= unread st < midiBufferSz.
Proof. apply Z.mod_pos_bound. reflexivity. Qed.

Lemma unread_length st : ring_inv st -> Z.of_nat (length (pending st)) = unread st.
Proof.
  intros Hinv. rewrite (pending_length st Hinv). fold (unread st).
  pose proof (unread_range st). lia.
Qed.

(** The slot [unread st] places after the read cursor is the one under
    the write cursor. *)
Lemma write_slot_position st :
  ring_inv st -> (midiRP st + unread st) mod midiBufferSz = midiWP st.
Proof.
  intros Hinv. unfold unread. rewrite Z.add_mod_idemp_r by discriminate.
  replace (midiRP st + (midiWP st - midiRP st)) with (midiWP st) by lia.
  apply Z.mod_small, Hinv.
Qed.

Lemma unread_after_push st :
  ring_inv st -> unread st < midiBufferSz - 1 ->
  ((midiWP st + 1) mod midiBufferSz - midiRP st) mod midiBufferSz = unread st + 1.
Proof.
  intros Hinv Hroom. pose proof (unread_range st) as Hr.
  rewrite Zminus_mod_idemp_l.
  replace (midiWP st + 1 - midiRP st) with (1 + (midiWP st - midiRP st)) by lia.
  rewrite <- Z.add_mod_idemp_r by discriminate. fold (unread st).
  rewrite Z.mod_small; unfold midiBufferSz in *; lia.
Qed.

(** A producer call on a ring with room appends its message to the unread
    ones. *)
Lemma pending_push st m st' :
  ring_inv st -> unread st < midiBufferSz - 1 ->
  handleIncomingMidiMessage m st = Done st' ->
  pending st' = pending st ++ [m].
Proof.
  intros Hinv Hroom. rewrite (push_spec st m Hinv). intros [= <-].
  pose proof (unread_range st) as Hr.
  unfold pending at 1. cbn [midiWP midiRP].
  rewrite (unread_after_push st Hinv Hroom).
  replace (Z.to_nat (unread st + 1)) with (Z.to_nat (unread st) + 1)%nat by lia.
  rewrite seq_app, omap_app. f_equal.
  - unfold pending. fold (unread st). apply omap_ext_in.
    intros j Hj. apply elem_of_seq in Hj. unfold slot_after. cbn [midiBuffer midiRP].
    apply list_lookup_insert_ne. intros Heq.
    apply Z2Nat.inj in Heq; [| apply Hinv | apply Z.mod_pos_bound; reflexivity].
    assert (Hj' : 0 < unread st - Z.of_nat j < midiBufferSz)
      by (unfold midiBufferSz in *; lia).
    apply (cyclic_neq ((midiRP st + Z.of_nat j) mod midiBufferSz)
                      (unread st - Z.of_nat j));
      [apply Z.mod_pos_bound; reflexivity | exact Hj' |].
    rewrite Z.add_mod_idemp_l by discriminate.
    replace (midiRP st + Z.of_nat j + (unread st - Z.of_nat j))
      with (midiRP st + unread st) by lia.
    rewrite (write_slot_position st Hinv). exact Heq.
  - simpl. unfold slot_after. cbn [midiBuffer midiRP].
    rewrite Z2Nat.id by lia. rewrite (write_slot_position st Hinv).
    rewrite list_lookup_insert_eq; [reflexivity|].
    destruct Hinv as (Hl & Hw & _). unfold midiBufferSz in *. lia.
Qed.

(** Pushing on a ring that holds 4095 unread messages loses them all: the
    write cursor lands on the read cursor, nothing is unread any more, and
    a drain pass right after it applies nothing. *)
Theorem push_on_full_ring_discards_unread st m :
  ring_inv st -> length (pending st) = 4095%nat ->
  exists st',
    handleIncomingMidiMessage m st = Done st' /\
    midiRP st' = midiWP st' /\
    pending st' = [] /\
    forall fuel : nat, drain fuel st' = Done st'.
Proof.
  intros Hinv Hfull.
  assert (Hun : unread st = 4095) by (rewrite <- (unread_length st Hinv); lia).
  eexists. split; [apply (push_spec st m Hinv)|]. cbn [midiRP midiWP].
  assert (Hmeet : midiRP st = (midiWP st + 1) mod midiBufferSz).
  { rewrite <- (write_slot_position st Hinv) at 1. rewrite Hun.
    rewrite Z.add_mod_idemp_l by discriminate.
    replace (midiRP st + 4095 + 1) with (midiRP st + 1 * midiBufferSz)
      by (unfold midiBufferSz; lia).
    rewrite Z.mod_add by discriminate. symmetry. apply Z.mod_small, Hinv. }
  split; [exact Hmeet|]. split.
  - apply pending_nil. exact Hmeet.
  - intros fuel. unfold drain. cbn [midiWP].
    destruct fuel; simpl; rewrite <- Hmeet, Z.eqb_refl; reflexivity.
Qed.

Hypothesis BLOCK_SIZE_pos : 0 < BLOCK_SIZE.
Hypothesis BLOCK_SIZE_int : BLOCK_SIZE <= Int32.max_int.

(** A callback moves messages from the unread ones to the applied ones and
    keeps their order. *)
Lemma callback_keeps_queue (fuel : nat) (numSamples : Z) st :
  ring_inv st -> 0 <= pos st <= BLOCK_SIZE -> (4096 <= fuel)%nat ->
  exists st',
    audioDeviceIOCallbackWithContext BLOCK_SIZE fuel numSamples st = Done st' /\
    applied (calls st') ++ pending st' = applied (calls st) ++ pending st /\
    ring_inv st' /\ 0 <= pos st' <= BLOCK_SIZE.
Proof.
  intros Hinv Hpos Hfuel. unfold audioDeviceIOCallbackWithContext.
  destruct (frames_spec BLOCK_SIZE BLOCK_SIZE_pos BLOCK_SIZE_int fuel Hfuel
              (Z.to_nat numSamples) 0 (call ProcessBlockOSC st))
    as (st' & seg & Hrun & Hcalls & _ & _ & Happ & Hbuf & Hwp & Hrp & Hpos');
    [exact Hinv | exact Hpos |].
  cbn [call midiBuffer midiWP midiRP pos calls] in *.
  exists st'. split; [exact Hrun|].
  assert (Hinv' : ring_inv st').
  { apply (ring_inv_fields st); [exact Hinv | rewrite Hbuf; reflexivity
                                 | rewrite Hwp; apply Hinv |].
    rewrite Hrp. destruct (_ <? _); apply Hinv. }
  split; [|split; [exact Hinv' | exact Hpos']].
  rewrite Hcalls, !applied_app, Happ. cbn [applied omap]. rewrite <- !app_assoc.
  f_equal. simpl.
  destruct (BLOCK_SIZE - pos st <? Z.of_nat (Z.to_nat numSamples)).
  - rewrite (pending_nil st') by (rewrite Hrp, Hwp; reflexivity).
    apply app_nil_r.
  - apply (pending_same_ring st st' Hbuf Hwp Hrp).
Qed.

(** First in, first out.  In a run of producer calls and audio callbacks in
    which every producer call finds fewer than 4095 unread messages, no
    message is lost, repeated or reordered: the messages applied so far
    followed by those still unread are the messages that were applied or
    unread at the start followed by the ones pushed, in push order. *)
Theorem ring_is_fifo_while_never_full (fuel : nat) (ops : list Op) :
  forall st,
    ring_inv st -> 0 <= pos st <= BLOCK_SIZE -> (4096 <= fuel)%nat ->
    never_full BLOCK_SIZE fuel ops st = true ->
    exists st',
      run_ops BLOCK_SIZE fuel ops st = Done st' /\
      applied (calls st') ++ pending st' =
        applied (calls st) ++ pending st ++ pushed ops.
Proof.
  induction ops as [| [m | numSamples] ops IH]; intros st Hinv Hpos Hfuel Hroom.
  - exists st. split; [reflexivity|]. simpl. rewrite app_nil_r. reflexivity.
  - cbn [never_full] in Hroom. apply andb_prop in Hroom as [Hlt Hrest].
    apply Z.ltb_lt in Hlt.
    destruct (handleIncomingMidiMessage m st) as [st1 | | |] eqn:Hpush;
      try discriminate.
    assert (Hinv1 := push_preserves st m st1 Hinv Hpush).
    assert (Hpend := pending_push st m st1 Hinv Hlt Hpush).
    assert (Hsame : calls st1 = calls st /\ pos st1 = pos st).
    { rewrite (push_spec st m Hinv) in Hpush. injection Hpush as <-. auto. }
    destruct Hsame as [Hcalls1 Hpos1].
    destruct (IH st1 Hinv1) as (st' & Hrun & Hq); [lia | exact Hfuel | exact Hrest |].
    exists st'. cbn [run_ops]. rewrite Hpush. cbn [bind]. split; [exact Hrun|].
    rewrite Hq, Hcalls1, Hpend. cbn [pushed omap]. rewrite <- !app_assoc. reflexivity.
  - cbn [never_full] in Hroom.
    destruct (callback_keeps_queue fuel numSamples st Hinv Hpos Hfuel)
      as (st1 & Hcb & Hq1 & Hinv1 & Hpos1).
    rewrite Hcb in Hroom.
    destruct (IH st1 Hinv1 Hpos1 Hfuel Hroom) as (st' & Hrun & Hq).
    exists st'. cbn [run_ops]. rewrite Hcb. cbn [bind]. split; [exact Hrun|].
    rewrite Hq. cbn [pushed omap]. rewrite !app_assoc. f_equal. exact Hq1.
Qed.

Lemma frames_written_app cs1 cs2 :
  frames_written (cs1 ++ cs2) = frames_written cs1 ++ frames_written cs2.
Proof. unfold frames_written. apply omap_app. Qed.

Lemma frames_written_ApplyMidi (es : list MidiMessage) :
  frames_written (map ApplyMidi es) = [].
Proof. induction es as [| e es IH]; [reflexivity | exact IH]. Qed.

Lemma count_process_ApplyMidi (es : list MidiMessage) :
  count_calls is_process (map ApplyMidi es) = 0%nat.
Proof. induction es as [| e es IH]; [reflexivity | exact IH]. Qed.

(** The frames of the [for] loop and the synthesis steps between them. *)
Lemma frames_accounting (fuel : nat) (Hfuel : (4096 <= fuel)%nat) (n : nat) :
  forall (i : Z) st,
    ring_inv st -> 0 <= pos st <= BLOCK_SIZE ->
    exists st' seg,
      frames BLOCK_SIZE fuel n i st = Done st' /\
      calls st' = calls st ++ seg /\
      frames_written seg =
        map (fun k : nat => (i + Z.of_nat k, (pos st + Z.of_nat k) mod BLOCK_SIZE))
            (seq 0 n) /\
      BLOCK_SIZE * Z.of_nat (count_calls is_process seg) + pos st'
        = pos st + Z.of_nat n /\
      0 <= pos st' <= BLOCK_SIZE /\ ((0 < n)%nat -> 1 <= pos st').
Proof.
  induction n as [| n IH]; intros i st Hinv Hpos.
  - exists st, []. simpl. rewrite app_nil_r.
    change (count_calls is_process (@nil (@Call MidiMessage))) with 0%nat.
    repeat split; auto; lia.
  - cbn [frames].
    assert (Hmap : forall (p1 : Z),
               (p1 = (pos st) mod BLOCK_SIZE + 1) ->
               map (fun k : nat => (i + 1 + Z.of_nat k, (p1 + Z.of_nat k) mod BLOCK_SIZE))
                   (seq 0 n)
               = map (fun k : nat => (i + Z.of_nat k, (pos st + Z.of_nat k) mod BLOCK_SIZE))
                     (seq 1 n)).
    { intros p1 ->. rewrite <- (fmap_S_seq 0 n), <- list_fmap_compose.
      apply list_fmap_ext. intros _ k _. simpl. f_equal; [lia|].
      rewrite <- Z.add_assoc, Z.add_mod_idemp_l by lia. f_equal. lia. }
    destruct (Z_le_gt_dec BLOCK_SIZE (pos st)) as [Hle | Hgt].
    + rewrite (frame_boundary BLOCK_SIZE fuel i st Hinv Hfuel Hle). cbn [bind].
      set (st1 := mkState _ _ _ _ _).
      assert (Hinv1 : ring_inv st1).
      { apply (ring_inv_fields st); auto; apply Hinv. }
      destruct (IH (i + 1) st1 Hinv1)
        as (st' & seg & Hrun & Hcalls & Hfr & Hbal & Hpos' & _).
      { simpl. lia. }
      assert (Hfull : pos st = BLOCK_SIZE) by lia.
      exists st', (map ApplyMidi (pending st) ++ Process :: WriteFrame i 0 :: seg).
      split; [exact Hrun|]. split.
      { rewrite Hcalls. simpl. rewrite <- !app_assoc. reflexivity. }
      split.
      { rewrite frames_written_app, frames_written_ApplyMidi.
        cbn [app seq map].
        change (frames_written (Process :: WriteFrame i 0 :: seg))
          with ((i, 0) :: frames_written seg).
        change (Z.of_nat 0) with 0.
        rewrite Hfr. cbn [pos st1]. rewrite !Z.add_0_r.
        assert (Hm : pos st mod BLOCK_SIZE = 0)
          by (rewrite Hfull; apply Z.mod_same; lia).
        rewrite Hm. f_equal. apply Hmap. rewrite Hm. reflexivity. }
      split.
      { rewrite count_calls_app, count_process_ApplyMidi.
        change (count_calls is_process (Process :: WriteFrame i 0 :: seg))
          with (S (count_calls is_process seg)).
        simpl in Hbal. lia. }
      split; [exact Hpos'|]. intros _.
      simpl in Hbal. destruct n as [| n'].
      * simpl in Hrun. injection Hrun as <-. simpl. lia.
      * assert (H1 : (0 < S n')%nat) by lia.
        destruct (IH (i + 1) st1 Hinv1) as (st2 & seg2 & Hrun2 & _ & _ & _ & _ & Hge);
          [simpl; lia|].
        rewrite Hrun in Hrun2. injection Hrun2 as <-. apply Hge. exact H1.
    + rewrite (frame_fill BLOCK_SIZE BLOCK_SIZE_int fuel i st) by lia. cbn [bind].
      set (st1 := mkState _ _ _ _ _).
      destruct (IH (i + 1) st1 Hinv)
        as (st' & seg & Hrun & Hcalls & Hfr & Hbal & Hpos' & Hge).
      { simpl. lia. }
      exists st', (WriteFrame i (pos st) :: seg).
      split; [exact Hrun|]. split.
      { rewrite Hcalls. simpl. rewrite <- app_assoc. reflexivity. }
      split.
      { cbn [seq map].
        change (frames_written (WriteFrame i (pos st) :: seg))
          with ((i, pos st) :: frames_written seg).
        change (Z.of_nat 0) with 0.
        rewrite Hfr. cbn [pos st1]. rewrite !Z.add_0_r.
        rewrite (Z.mod_small (pos st)) by lia. f_equal.
        apply Hmap. rewrite Z.mod_small by lia. reflexivity. }
      split.
      { change (count_calls is_process (WriteFrame i (pos st) :: seg))
          with (count_calls is_process seg).
        simpl in Hbal. lia. }
      split; [exact Hpos'|]. intros _.
      destruct n as [| n'].
      * simpl in Hrun. injection Hrun as <-. simpl. lia.
      * apply Hge. lia.
Qed.

(** A callback writes exactly [numSamples] output frames, with the frame
    indices in ascending order from zero, and frame [k] carries the sample
    at index [(pos + k) mod BLOCK_SIZE] of the engine's block, [pos] being
    the counter at entry: the blocks are played back without a gap and
    without a repeat, whatever the sizes of the callbacks. *)
Theorem callback_writes_consecutive_samples (fuel : nat) (numSamples : Z) st :
  ring_inv st -> 0 <= pos st <= BLOCK_SIZE -> (4096 <= fuel)%nat ->
  exists st' seg,
    audioDeviceIOCallbackWithContext BLOCK_SIZE fuel numSamples st = Done st' /\
    calls st' = calls st ++ ProcessBlockOSC :: seg /\
    frames_written seg =
      map (fun k : nat => (Z.of_nat k, (pos st + Z.of_nat k) mod BLOCK_SIZE))
          (seq 0 (Z.to_nat numSamples)).
Proof.
  intros Hinv Hpos Hfuel. unfold audioDeviceIOCallbackWithContext.
  destruct (frames_accounting fuel Hfuel (Z.to_nat numSamples) 0 (call ProcessBlockOSC st))
    as (st' & seg & Hrun & Hcalls & Hfr & _); [exact Hinv | exact Hpos |].
  exists st', seg. split; [exact Hrun|]. split.
  - simpl in Hcalls. rewrite Hcalls, <- app_assoc. reflexivity.
  - exact Hfr.
Qed.

(** A callback runs as many synthesis steps as the frames it writes use
    up: [BLOCK_SIZE] times the number of [process] calls plus the counter
    at exit equals the counter at entry plus the number of frames.  With no
    frame to write (a zero or negative [numSamples]) it only polls: no
    synthesis step, counter unchanged. *)
Theorem callback_consumes_whole_blocks (fuel : nat) (numSamples : Z) st :
  ring_inv st -> 0 <= pos st <= BLOCK_SIZE -> (4096 <= fuel)%nat ->
  exists st' seg,
    audioDeviceIOCallbackWithContext BLOCK_SIZE fuel numSamples st = Done st' /\
    calls st' = calls st ++ ProcessBlockOSC :: seg /\
    BLOCK_SIZE * Z.of_nat (count_calls is_process seg) + pos st'
      = pos st + Z.max 0 numSamples /\
    (0 < numSamples -> 1 <= pos st' <= BLOCK_SIZE) /\
    (numSamples <= 0 -> seg = [] /\ pos st' = pos st).
Proof.
  intros Hinv Hpos Hfuel. unfold audioDeviceIOCallbackWithContext.
  destruct (frames_accounting fuel Hfuel (Z.to_nat numSamples) 0 (call ProcessBlockOSC st))
    as (st' & seg & Hrun & Hcalls & _ & Hbal & Hpos' & Hge); [exact Hinv | exact Hpos |].
  exists st', seg. split; [exact Hrun|]. split.
  { simpl in Hcalls. rewrite Hcalls, <- app_assoc. reflexivity. }
  simpl in Hbal. split; [lia|]. split; [intros Hn; split; [apply Hge|]; lia|].
  intros Hn. replace (Z.to_nat numSamples) with 0%nat in * by lia.
  simpl in Hrun. injection Hrun as <-. simpl in Hcalls.
  split; [|reflexivity].
  apply (app_inv_head (calls st ++ [ProcessBlockOSC])).
  rewrite app_nil_r. symmetry. exact Hcalls.
Qed.

End TraceProofs.

(** * The audio interface argument *)

Import Startup.

Lemma digit_of_pretty_char (d : N) :
  (d < 10)%N -> digit_of (pretty_N_char d) = Some (Z.of_N d).
Proof.
  intros Hd.
  assert (d = 0 \/ d = 1 \/ d = 2 \/ d = 3 \/ d = 4 \/ d = 5 \/ d = 6 \/ d = 7
          \/ d = 8 \/ d = 9)%N as Hcases by lia.
  repeat (destruct Hcases as [-> | Hcases]; [reflexivity|]). subst d. reflexivity.
Qed.

(** A digit character is neither white space nor a sign, so [atoi] starts
    reading digits at it. *)
Lemma decimal_value_digit_head (c : ascii) (s : string) :
  is_Some (digit_of c) -> decimal_value (String c s) = digits_value 0 (String c s).
Proof.
  intros [d Hd].
  destruct c as [[] [] [] [] [] [] [] []];
    try (vm_compute in Hd; discriminate Hd); reflexivity.
Qed.

Lemma dot_is_no_digit (c : ascii) : is_Some (digit_of c) -> Ascii.eqb c dot = false.
Proof.
  intros [d Hd].
  destruct c as [[] [] [] [] [] [] [] []];
    try (vm_compute in Hd; discriminate Hd); reflexivity.
Qed.

(** Reading the digits that [pretty_N_go] puts in front of [s]. *)
Lemma digits_value_pretty_go (x : N) :
  exists k, 0 <= k /\
    forall (acc : Z) (s : string),
      digits_value acc (pretty_N_go x s) = digits_value (acc * 10 ^ k + Z.of_N x) s.
Proof.
  induction (N.lt_wf_0 x) as [x _ IH].
  destruct (N.eq_dec x 0%N) as [-> | Hx].
  - exists 0. split; [lia|]. intros acc s. rewrite pretty_N_go_0. f_equal. lia.
  - destruct (IH (x `div` 10)%N) as (k & Hk & Hread).
    { apply N.div_lt; lia. }
    exists (k + 1). split; [lia|]. intros acc s.
    rewrite pretty_N_go_step by lia. rewrite Hread. cbn [digits_value].
    rewrite digit_of_pretty_char by (apply N.mod_lt; lia).
    f_equal. rewrite Z.pow_add_r by lia. rewrite N2Z.inj_div, N2Z.inj_mod.
    change (Z.of_N 10) with 10. change (10 ^ 1) with 10.
    pose proof (Z.div_mod (Z.of_N x) 10). lia.
Qed.

(** What [pretty_N_go] puts in front of a string starts with a digit and
    holds no dot. *)
Lemma pretty_go_head (x : N) :
  forall s : string,
    (0 < x)%N ->
    exists c s', pretty_N_go x s = String c s' /\ is_Some (digit_of c).
Proof.
  induction (N.lt_wf_0 x) as [x _ IH]. intros s Hx.
  rewrite pretty_N_go_step by exact Hx.
  destruct (N.eq_dec (x `div` 10)%N 0%N) as [Hz | Hnz].
  - rewrite Hz, pretty_N_go_0. eexists _, _. split; [reflexivity|].
    rewrite digit_of_pretty_char by (apply N.mod_lt; lia). eauto.
  - apply IH; [apply N.div_lt; lia | apply N.neq_0_lt_0; exact Hnz].
Qed.

Lemma pretty_go_no_dot (x : N) :
  forall s : string,
    up_to_delim dot s = None -> up_to_delim dot (pretty_N_go x s) = None.
Proof.
  induction (N.lt_wf_0 x) as [x _ IH]. intros s Hs.
  destruct (N.eq_dec x 0%N) as [-> | Hx]; [rewrite pretty_N_go_0; exact Hs|].
  rewrite pretty_N_go_step by lia. apply IH; [apply N.div_lt; lia|].
  cbn [up_to_delim]. rewrite dot_is_no_digit, Hs; [reflexivity|].
  rewrite digit_of_pretty_char by (apply N.mod_lt; lia). eauto.
Qed.

Lemma pretty_positive_go (p : positive) :
  pretty (Z.pos p) = pretty_N_go (N.pos p) EmptyString.
Proof. reflexivity. Qed.

Lemma pretty_negative_go (p : positive) :
  pretty (Z.neg p) = String "-" (pretty_N_go (N.pos p) EmptyString).
Proof. reflexivity. Qed.

Lemma digits_value_pretty_pos (p : positive) :
  digits_value 0 (pretty_N_go (N.pos p) EmptyString) = Z.pos p.
Proof.
  destruct (digits_value_pretty_go (N.pos p)) as (k & _ & Hread).
  rewrite Hread. simpl. reflexivity.
Qed.

(** The decimal rendering of any integer is read back. *)
Lemma decimal_value_to_string_int (z : Z) : decimal_value (to_string_int z) = z.
Proof.
  unfold to_string_int. destruct z as [| p | p].
  - reflexivity.
  - rewrite pretty_positive_go.
    destruct (pretty_go_head (N.pos p) EmptyString) as (c & s' & Heq & Hc); [lia|].
    rewrite Heq, (decimal_value_digit_head c s' Hc), <- Heq.
    apply digits_value_pretty_pos.
  - rewrite pretty_negative_go. unfold decimal_value. cbn [skip_spaces].
    change (is_space "-") with false. cbv iota.
    rewrite digits_value_pretty_pos. reflexivity.
Qed.

(** [atoi] reads back the decimal rendering of every [int]. *)
Lemma atoi_to_string_int (z : Z) :
  Int32.min_int <= z <= Int32.max_int -> atoi (to_string_int z) = Some z.
Proof.
  intros Hz. unfold atoi. rewrite decimal_value_to_string_int. cbv zeta.
  destruct (Z.leb_spec Int32.min_int z) as [_ | Hlo]; [|lia].
  destruct (Z.leb_spec z Int32.max_int) as [_ | Hhi]; [|lia]. reflexivity.
Qed.

Lemma to_string_int_no_dot (z : Z) : up_to_delim dot (to_string_int z) = None.
Proof.
  unfold to_string_int. destruct z as [| p | p].
  - reflexivity.
  - rewrite pretty_positive_go. apply pretty_go_no_dot. reflexivity.
  - rewrite pretty_negative_go. cbn [up_to_delim].
    change (Ascii.eqb "-" dot) with false. cbv iota.
    rewrite pretty_go_no_dot; reflexivity.
Qed.

Lemma up_to_delim_found (d : ascii) (s t : string) :
  up_to_delim d s = None -> up_to_delim d (s +:+ String d t) = Some (s, t).
Proof.
  induction s as [| c s IH]; intros Hs.
  - change (EmptyString +:+ String d t) with (String d t).
    cbn [up_to_delim]. rewrite Ascii.eqb_refl. reflexivity.
  - change (String c s +:+ String d t) with (String c (s +:+ String d t)).
    cbn [up_to_delim] in *. destruct (Ascii.eqb c d); [discriminate|].
    destruct (up_to_delim d s) as [[tok rest] |]; [discriminate|].
    rewrite IH by reflexivity. reflexivity.
Qed.

Lemma listed_index_splits (i j : Z) :
  up_to_delim dot (listed_index i j) = Some (to_string_int i, to_string_int j).
Proof.
  unfold listed_index. change ("." +:+ to_string_int j) with (String dot (to_string_int j)).
  apply up_to_delim_found, to_string_int_no_dot.
Qed.

(** The index that [listAudioDevices] prints for type [i] and device [j]
    is accepted by the audio interface option and selects that type and
    that device. *)
Theorem listed_index_selects_listed_device (i j types_size : Z) :
  0 <= i < types_size -> types_size <= Int32.max_int -> 0 <= j <= Int32.max_int ->
  parse_audio_interface (listed_index i j) types_size = Some (inr (i, j)).
Proof.
  intros Hi Hsize Hj. unfold parse_audio_interface.
  rewrite listed_index_splits.
  rewrite !atoi_to_string_int by (unfold Int32.min_int, Int32.max_int in *; lia).
  destruct (Z.ltb_spec i 0) as [Hneg | _]; [lia|].
  destruct (Z.leb_spec types_size i) as [Hbig | _]; [lia|]. reflexivity.
Qed.

(** Where [main] comes to read the audio interface argument: a bare
    number, without the dot, makes that step call [exit(3)]; the text
    [i.j] of two [int] values whose type index [i] is negative or not
    below the number of device types makes it call [exit(4)], whatever the
    device index [j]. *)
Theorem audio_interface_rejections (i j types_size : Z) :
  parse_audio_interface (to_string_int i) types_size = Some (inl 3) /\
  (Int32.min_int <= i <= Int32.max_int -> Int32.min_int <= j <= Int32.max_int ->
   i < 0 \/ types_size <= i ->
   parse_audio_interface (listed_index i j) types_size = Some (inl 4)).
Proof.
  split.
  - unfold parse_audio_interface. rewrite to_string_int_no_dot. reflexivity.
  - intros Hi Hj Hout. unfold parse_audio_interface.
    rewrite listed_index_splits, !atoi_to_string_int by assumption.
    destruct (Z.ltb_spec i 0) as [Hneg | Hnn]; [reflexivity|].
    destruct (Z.leb_spec types_size i) as [Hbig | Hsmall]; [reflexivity | lia].
Qed.

(** * Further properties of the OSC dispatcher *)

Import OSCExtra.

Section DispatcherFootprint.

Context {Float32 ParamRef : Type}.
Variable FILENAME_MAX : nat.
Variable parameterFromOSCName : string -> option ParamRef.
Variable fs_exists : string -> option bool.
Variable is_relative : string -> bool.
Variable path_div : string -> string -> string.
Variable datapath : string.
Variable to_string_float : Float32 -> string.
Variable sender_send : string -> string -> bool.

Implicit Types (message om : @OSCMessage Float32) (w : @Synth Float32 ParamRef).

Abbreviation handled :=
  (oscMessageReceived FILENAME_MAX parameterFromOSCName fs_exists is_relative
                      path_div datapath).
Abbreviation routed :=
  (dispatch FILENAME_MAX parameterFromOSCName fs_exists is_relative
            path_div datapath).

(** [getWholeString] returns for every message.  Its result is the string
    values of the arguments with one space between neighbours and none at
    either end: the empty string for no argument, the argument itself for a
    single one. *)
Theorem getWholeString_joins_arguments om :
  getWholeString om = Done (String.concat " " (map getString (arguments om))) /\
  (forall addr : string,
     getWholeString (@mkMessage Float32 addr []) = Done EmptyString) /\
  (forall (addr : string) (a : @OSCArgument Float32),
     getWholeString (mkMessage addr [a]) = Done (getString a)).
Proof.
  split; [|split; intros addr; [|intros a]]; rewrite getWholeString_spec; reflexivity.
Qed.

(** The three ways a message can go: the empty address, an address without
    the leading separator, and an address whose second segment reaches the
    chain of comparisons. *)
Lemma handled_cases message w :
  handled message w = Thrown "std::out_of_range" \/
  handled message w = Done w \/
  exists (t1 : string) (ts : list string) (split1 : istringstream),
    split_on slash (addressPattern message) = EmptyString :: t1 :: ts /\
    stream_tokens slash split1 = ts /\
    handled message w = routed message (addressPattern message) t1 split1 w.
Proof.
  destruct message as [addr args]. destruct addr as [| c rest].
  - left. reflexivity.
  - destruct (Ascii.eqb_spec c slash) as [-> | Hne].
    + right. right.
      destruct (split_on slash rest) as [| t1 ts] eqn:Hrest.
      { exfalso. exact (split_on_nonempty slash rest Hrest). }
      assert (Hsplit : split_on slash (addressPattern (mkMessage (String slash rest) args))
                       = EmptyString :: t1 :: ts).
      { simpl. rewrite Hrest. reflexivity. }
      destruct (received_dispatch FILENAME_MAX parameterFromOSCName fs_exists
                  is_relative path_div datapath _ w _ _ Hsplit) as (split1 & Hts & Heq).
      exists t1, ts, split1. auto.
    + right. left. apply address_without_separator_is_dropped. exact Hne.
Qed.

(** The end of a branch: the state returned differs from [w] by the effects
    appended, none of which is a save or a transmission. *)
Ltac branch_end :=
  intros [= <-];
  eexists; split;
  [ first [ symmetry; apply app_nil_r
          | cbn; rewrite <- ?app_assoc; reflexivity ]
  | split; [reflexivity
           | split; [reflexivity
                    | split; [first [reflexivity | cbn; congruence]|]]] ].

(** What a routed message may touch.  The pending patch-load request is
    written by patch/load only, the persisted default paths by
    tuning/path/scl and tuning/path/kbm only. *)
Lemma routed_footprint message (addr a1 : string) (split1 : istringstream) w w' :
  routed message addr a1 split1 w = Done w' ->
  exists es,
    effects w' = effects w ++ es /\
    no_direct_io es = true /\
    param_ptr w' = param_ptr w /\
    sendingOSC w' = sendingOSC w /\
    ((patchid_file w' = patchid_file w /\ has_patchid_file w' = has_patchid_file w)
     \/ (a1 = "patch" /\ fst (getline split1 EmptyString slash) = "load")) /\
    (userDefaultPath w' = userDefaultPath w
     \/ (a1 = "tuning" /\ fst (getline split1 EmptyString slash) = "path" /\
         let a3 := fst (getline (snd (getline split1 EmptyString slash))
                                EmptyString slash) in
         a3 = "scl" \/ a3 = "kbm")).
Proof.
  unfold dispatch.
  destruct (String.eqb a1 "param") eqn:E1.
  { unfold param_branch. destruct (parameterFromOSCName addr) as [p |].
    - destruct (arg_at message 0) as [[] | | |]; cbn [bind]; try discriminate;
        branch_end; split; left; auto.
    - branch_end; split; left; auto. }
  destruct (String.eqb a1 "patch") eqn:E2.
  { apply String.eqb_eq in E2.
    destruct (getline split1 EmptyString slash) as [a2 split2] eqn:Hg.
    unfold patch_branch. destruct (String.eqb a2 "load") eqn:L.
    - apply String.eqb_eq in L. rewrite getWholeString_spec. cbn [bind].
      unfold strncpy. destruct (_ <=? _)%nat; cbn [bind]; [|discriminate].
      branch_end. split; [right; auto | left; reflexivity].
    - repeat match goal with
             | |- context [String.eqb a2 ?t] => destruct (String.eqb a2 t)
             end; branch_end; split; left; auto. }
  destruct (String.eqb a1 "tuning") eqn:E3.
  { apply String.eqb_eq in E3. rewrite getWholeString_spec. cbn [bind].
    destruct (getline split1 EmptyString slash) as [a2 split2] eqn:Hg.
    unfold tuning_branch. destruct (String.eqb a2 "path") eqn:P.
    - apply String.eqb_eq in P. rewrite getWholeString_spec. cbn [bind].
      destruct (path_is_missing _) as [[] | | |]; cbn [bind]; try discriminate;
        [branch_end; split; left; auto|].
      destruct (getline split2 EmptyString slash) as [a3 split3] eqn:Hg3.
      destruct (String.eqb a3 "scl") eqn:S3.
      { apply String.eqb_eq in S3. branch_end.
        split; [left; auto | right; cbn; rewrite Hg3; cbn; auto]. }
      destruct (String.eqb a3 "kbm") eqn:K3.
      { apply String.eqb_eq in K3. branch_end.
        split; [left; auto | right; cbn; rewrite Hg3; cbn; auto]. }
      branch_end; split; left; auto.
    - repeat match goal with
             | |- context [String.eqb a2 ?t] => destruct (String.eqb a2 t)
             end; branch_end; split; left; auto. }
  destruct (String.eqb a1 "send_all_parameters").
  { unfold sendAllParams. destruct (sendingOSC w) eqn:Hs;
      branch_end; try (split; left; auto); auto. }
  branch_end; split; left; auto.
Qed.

(** A stream whose next read yields a non-empty segment holds that
    segment first. *)
Lemma first_token_of_stream (split : istringstream) (t : string) :
  fst (getline split EmptyString slash) = t -> t <> EmptyString ->
  exists ts,
    stream_tokens slash split = t :: ts /\
    stream_tokens slash (snd (getline split EmptyString slash)) = ts.
Proof.
  intros Hfst Hne. destruct (stream_tokens slash split) as [| t' ts] eqn:Hts.
  - rewrite (getline_exhausted slash split EmptyString Hts) in Hfst.
    simpl in Hfst. congruence.
  - destruct (getline_next slash split EmptyString t' ts Hts) as (split' & Hg & Hts').
    rewrite Hg in Hfst |- *. simpl in Hfst |- *. subst t'. exists ts. auto.
Qed.

(** Whatever the message, the handler itself saves no patch and transmits
    nothing: the effects it adds hold no [savePatch], no [savePatchToPath],
    no call of the OSC sender and no failure report.  Saves and
    transmissions only ever appear as bodies handed to [callAsync].  The
    parameter list and the sending flag are left as they were. *)
Theorem handler_defers_saves_and_sends message w w' :
  handled message w = Done w' ->
  exists es,
    effects w' = effects w ++ es /\ no_direct_io es = true /\
    param_ptr w' = param_ptr w /\ sendingOSC w' = sendingOSC w.
Proof.
  intros Hrun.
  destruct (handled_cases message w) as [Hth | [Hdrop | (t1 & ts & split1 & _ & _ & Heq)]].
  - rewrite Hth in Hrun. discriminate Hrun.
  - rewrite Hdrop in Hrun. injection Hrun as <-. exists [].
    rewrite app_nil_r. auto.
  - rewrite Heq in Hrun.
    destruct (routed_footprint _ _ _ _ _ _ Hrun) as (es & He & Hio & Hp & Hs & _).
    exists es. auto.
Qed.

(** The pending patch-load request is written by patch/load messages only:
    a message whose address does not start with the segments patch and
    load leaves [patchid_file] and [has_patchid_file] as they were. *)
Theorem only_patch_load_writes_pending_request message w w' :
  handled message w = Done w' ->
  (forall ts, split_on slash (addressPattern message)
              <> EmptyString :: "patch" :: "load" :: ts) ->
  patchid_file w' = patchid_file w /\ has_patchid_file w' = has_patchid_file w.
Proof.
  intros Hrun Hother.
  destruct (handled_cases message w)
    as [Hth | [Hdrop | (t1 & ts & split1 & Hsplit & Hts & Heq)]].
  - rewrite Hth in Hrun. discriminate Hrun.
  - rewrite Hdrop in Hrun. injection Hrun as <-. auto.
  - rewrite Heq in Hrun.
    destruct (routed_footprint _ _ _ _ _ _ Hrun)
      as (es & _ & _ & _ & _ & [Hsame | [Ha1 Ha2]] & _); [exact Hsame|].
    exfalso. destruct (first_token_of_stream split1 "load" Ha2) as (ts' & Hts' & _);
      [discriminate|].
    apply (Hother ts'). rewrite Hsplit, Ha1, <- Hts, Hts'. reflexivity.
Qed.

(** The persisted default paths are written by tuning/path/scl and
    tuning/path/kbm messages only. *)
Theorem only_tuning_path_writes_default_paths message w w' :
  handled message w = Done w' ->
  (forall ts, split_on slash (addressPattern message)
              <> EmptyString :: "tuning" :: "path" :: "scl" :: ts) ->
  (forall ts, split_on slash (addressPattern message)
              <> EmptyString :: "tuning" :: "path" :: "kbm" :: ts) ->
  userDefaultPath w' = userDefaultPath w.
Proof.
  intros Hrun Hscl Hkbm.
  destruct (handled_cases message w)
    as [Hth | [Hdrop | (t1 & ts & split1 & Hsplit & Hts & Heq)]].
  - rewrite Hth in Hrun. discriminate Hrun.
  - rewrite Hdrop in Hrun. injection Hrun as <-. reflexivity.
  - rewrite Heq in Hrun.
    destruct (routed_footprint _ _ _ _ _ _ Hrun)
      as (es & _ & _ & _ & _ & _ & [Hsame | (Ha1 & Ha2 & Ha3)]); [exact Hsame|].
    exfalso.
    destruct (first_token_of_stream split1 "path" Ha2) as (ts2 & Hts2 & Hrest);
      [discriminate|].
    cbv zeta in Ha3. destruct Ha3 as [Ha3 | Ha3].
    + destruct (first_token_of_stream _ "scl" Ha3) as (ts3 & Hts3 & _); [discriminate|].
      apply (Hscl ts3). rewrite Hsplit, Ha1, <- Hts, Hts2, <- Hrest, Hts3. reflexivity.
    + destruct (first_token_of_stream _ "kbm" Ha3) as (ts3 & Hts3 & _); [discriminate|].
      apply (Hkbm ts3). rewrite Hsplit, Ha1, <- Hts, Hts2, <- Hrest, Hts3. reflexivity.
Qed.

(** A message whose first address segment is none of param, patch, tuning
    and send_all_parameters is dropped: the handler returns the state as it
    was, with nothing logged and nothing reported. *)
Theorem unrecognised_first_segment_is_dropped message w (t1 : string) (ts : list string) :
  split_on slash (addressPattern message) = EmptyString :: t1 :: ts ->
  t1 <> "param" -> t1 <> "patch" -> t1 <> "tuning" -> t1 <> "send_all_parameters" ->
  handled message w = Done w.
Proof.
  intros Hsplit H1 H2 H3 H4.
  destruct (received_dispatch FILENAME_MAX parameterFromOSCName fs_exists
              is_relative path_div datapath message w t1 ts Hsplit) as (split1 & _ & ->).
  unfold dispatch.
  apply String.eqb_neq in H1, H2, H3, H4. rewrite H1, H2, H3, H4. reflexivity.
Qed.

(** With sending disabled a send_all_parameters message is dropped:
    nothing is handed to [callAsync] and the state is returned as it was;
    the same holds for [send]. *)
Theorem nothing_is_queued_while_sending_is_off message w (ts : list string) :
  split_on slash (addressPattern message)
    = EmptyString :: "send_all_parameters" :: ts ->
  sendingOSC w = false ->
  handled message w = Done w /\
  forall addr msg : string, send addr msg w = w.
Proof.
  intros Hsplit Hoff. split.
  - destruct (received_dispatch FILENAME_MAX parameterFromOSCName fs_exists
                is_relative path_div datapath message w _ ts Hsplit)
      as (split1 & _ & ->).
    unfold dispatch. simpl (String.eqb _ _). cbv iota.
    unfold sendAllParams. rewrite Hoff. reflexivity.
  - intros addr msg. unfold send. rewrite Hoff. reflexivity.
Qed.

(** The path branch of the tuning chain on an accepted argument: what it
    returns once the third segment is the token of kind [k]. *)
Lemma tuning_path_branch (k : TuningKind) message w (split2 : istringstream)
    (ts : list string) :
  stream_tokens slash split2 = kind_token k :: ts ->
  joined_arguments message = "_reset"
  \/ fs_exists (joined_arguments message) = Some true ->
  exists w',
    tuning_branch fs_exists is_relative path_div datapath message "path" split2 w
      (joined_arguments message) = Done w' /\
    effects w' = effects w /\
    userDefaultPath w' (kind_key k)
      = Some (path_to_store path_div datapath k (joined_arguments message)) /\
    userDefaultPath w' (other_key k) = userDefaultPath w (other_key k) /\
    patchid_file w' = patchid_file w /\ has_patchid_file w' = has_patchid_file w.
Proof.
  unfold joined_arguments. intros Hts Hok.
  unfold tuning_branch. simpl (String.eqb "path" _). cbv iota.
  rewrite getWholeString_spec. cbn [bind].
  set (dataStr := joined_with_spaces (map getString (arguments message))) in *.
  assert (Hpass : path_is_missing fs_exists dataStr = Done false).
  { unfold path_is_missing, fs_exists_or_throw.
    destruct Hok as [-> | ->]; [reflexivity|].
    destruct (String.eqb dataStr "_reset"); reflexivity. }
  rewrite Hpass. cbn [bind].
  destruct (getline_next slash split2 EmptyString (kind_token k) ts Hts)
    as (split3 & -> & _).
  unfold path_to_store.
  destruct k; simpl (String.eqb _ _); cbv iota; cbn [kind_token];
    simpl (String.eqb _ _); cbv iota;
    (eexists; split; [reflexivity|]; repeat split).
Qed.

(** A tuning/path/scl or tuning/path/kbm message whose joined argument
    string is the reset word or an existing path stores one default path,
    under the key of its kind: the library directory below [datapath] for
    the reset word, the given path otherwise.  The default of the other
    kind, the pending patch-load request and the effect log are untouched;
    no error is reported. *)
Theorem tuning_path_stores_default (k : TuningKind) message w (ts : list string) :
  split_on slash (addressPattern message)
    = EmptyString :: "tuning" :: "path" :: kind_token k :: ts ->
  joined_arguments message = "_reset"
  \/ fs_exists (joined_arguments message) = Some true ->
  exists w',
    handled message w = Done w' /\
    effects w' = effects w /\
    (forall d, getUserDefaultPath w' (kind_key k) d
               = path_to_store path_div datapath k (joined_arguments message)) /\
    (forall d, getUserDefaultPath w' (other_key k) d
               = getUserDefaultPath w (other_key k) d) /\
    patchid_file w' = patchid_file w /\ has_patchid_file w' = has_patchid_file w.
Proof.
  intros Hsplit Hok.
  destruct (received_tuning FILENAME_MAX parameterFromOSCName fs_exists is_relative
              path_div datapath message w _ _ Hsplit) as (split2 & Hts & ->).
  destruct (tuning_path_branch k message w split2 ts Hts Hok)
    as (w' & Hrun & Heff & Hkey & Hother & Hfile & Hhas).
  exists w'. split; [exact Hrun|]. split; [exact Heff|].
  unfold getUserDefaultPath. rewrite Hkey, Hother. auto.
Qed.

(** Setting a default and then naming a file compose.  After a
    tuning/path message of a kind has stored an existing path, a tuning
    message of that kind with a relative name loads the file of that name,
    with the extension of the kind, inside the stored path; an absolute
    name is loaded as it is, with the extension, whatever was stored.
    Each of the two messages returns, and together they add exactly one
    load to the effect log. *)
Theorem tuning_name_resolves_against_stored_default
    (k : TuningKind) (m1 m2 : @OSCMessage Float32) w (ts1 ts2 : list string) :
  split_on slash (addressPattern m1)
    = EmptyString :: "tuning" :: "path" :: kind_token k :: ts1 ->
  joined_arguments m1 <> "_reset" -> fs_exists (joined_arguments m1) = Some true ->
  split_on slash (addressPattern m2) = EmptyString :: "tuning" :: kind_token k :: ts2 ->
  exists w1 w2,
    handled m1 w = Done w1 /\ handled m2 w1 = Done w2 /\
    effects w2 =
      effects w
      ++ [kind_load k
            (if is_relative (joined_arguments m2)
             then path_div (joined_arguments m1) (joined_arguments m2)
                  +:+ kind_extension k
             else joined_arguments m2 +:+ kind_extension k)].
Proof.
  intros Hs1 Hreset Hexists Hs2.
  destruct (received_tuning FILENAME_MAX parameterFromOSCName fs_exists is_relative
              path_div datapath m1 w _ _ Hs1) as (split1 & Hts & Hm1).
  destruct (tuning_path_branch k m1 w split1 ts1 Hts (or_intror Hexists))
    as (w1 & Hrun1 & Heff1 & Hkey & _).
  fold (joined_arguments m1) in Hm1. rewrite <- Hm1 in Hrun1.
  assert (Hstored : forall d, getUserDefaultPath w1 (kind_key k) d = joined_arguments m1).
  { intros d. unfold getUserDefaultPath. rewrite Hkey. unfold path_to_store.
    apply String.eqb_neq in Hreset. rewrite Hreset. reflexivity. }
  destruct (received_tuning FILENAME_MAX parameterFromOSCName fs_exists is_relative
              path_div datapath m2 w1 _ _ Hs2) as (split2 & _ & Hrun2).
  unfold tuning_branch in Hrun2. fold (joined_arguments m2) in Hrun2.
  exists w1.
  destruct k; cbn [kind_token kind_key kind_load kind_extension] in *;
    simpl (String.eqb _ _) in Hrun2; cbv iota in Hrun2; rewrite Hstored in Hrun2;
    (eexists; split; [exact Hrun1|]; split; [exact Hrun2|]);
    cbn [effect effects]; rewrite Heff1;
    destruct (is_relative (joined_arguments m2)); reflexivity.
Qed.

Lemma for_each_app {A W : Type} (f : A -> W -> outcome W) (l1 l2 : list A) (w : W) :
  for_each f (l1 ++ l2) w = (do w1 <- for_each f l1 w; for_each f l2 w1).
Proof.
  revert w. induction l1 as [| a l1 IH]; intros w; simpl; [reflexivity|].
  destruct (f a w); simpl; auto.
Qed.

Lemma element_is_its_messages :
  forall (e : @OSCBundleElement Float32) w,
    oscElementReceived FILENAME_MAX parameterFromOSCName fs_exists is_relative
                       path_div datapath e w
    = for_each handled (messages_of e) w.
Proof.
  fix IH 1. intros [m | b] w.
  - simpl. destruct (handled m w); reflexivity.
  - simpl. revert w.
    induction b as [| e b IHb]; intros w; simpl; [reflexivity|].
    rewrite for_each_app, IH.
    destruct (for_each handled (messages_of e) w); simpl; auto.
Qed.

(** A bundle is dispatched message by message: receiving it is receiving
    its messages one after the other in the order they appear, those of a
    nested bundle in the place of that bundle, each on the state the one
    before left; a message that does not return ends the whole bundle. *)
Theorem bundle_is_dispatched_message_by_message
    (bundle : list (@OSCBundleElement Float32)) w :
  oscBundleReceived FILENAME_MAX parameterFromOSCName fs_exists is_relative
                    path_div datapath bundle w
  = for_each handled (bundle_messages bundle) w.
Proof.
  unfold oscBundleReceived, bundle_messages. revert w.
  induction bundle as [| e bundle IH]; intros w; simpl; [reflexivity|].
  rewrite for_each_app, element_is_its_messages.
  destruct (for_each handled (messages_of e) w); simpl; auto.
Qed.

Lemma failure_reports_app (es1 es2 : list (@Effect Float32 ParamRef)) :
  failure_reports (es1 ++ es2) = (failure_reports es1 + failure_reports es2)%nat.
Proof. unfold failure_reports. rewrite List.filter_app, length_app. reflexivity. Qed.

Lemma sendAllParams_loop_failures :
  forall (rest pre : list Param) (valStr : string) w,
    param_ptr w = pre ++ rest ->
    exists w' es,
      sendAllParams_loop to_string_float sender_send
        (length rest) (Z.of_nat (length pre)) valStr w = Done w' /\
      effects w' = effects w ++ es /\
      sent es = formatted to_string_float valStr rest /\
      failure_reports es
        = length (List.filter (refused sender_send)
                              (formatted to_string_float valStr rest)).
Proof.
  induction rest as [| p rest IH]; intros pre valStr w Hps.
  - exists w, []. simpl. rewrite app_nil_r. auto.
  - cbn [length sendAllParams_loop]. rewrite (param_at_middle w pre p rest Hps).
    cbn [bind].
    set (v := format_value to_string_float p valStr).
    replace (Z.of_nat (length pre) + 1) with (Z.of_nat (length (pre ++ [p])))
      by (rewrite length_app; simpl; lia).
    destruct (IH (pre ++ [p]) v (sender_transmit sender_send (oscName p) v w))
      as (w' & es & Hrun & Hes & Hsent & Hfail).
    { unfold sender_transmit. destruct (sender_send (oscName p) v); simpl;
        rewrite Hps, <- app_assoc; reflexivity. }
    exists w'.
    exists ((SenderSend (oscName p) v
             :: if sender_send (oscName p) v then []
                else [Cout "Error: could not send OSC message."]) ++ es).
    split; [exact Hrun|]. split.
    { rewrite Hes. unfold sender_transmit.
      destruct (sender_send (oscName p) v); simpl; rewrite <- ?app_assoc; reflexivity. }
    split.
    { rewrite sent_app, Hsent. cbn [formatted]. fold v.
      destruct (sender_send (oscName p) v); reflexivity. }
    rewrite failure_reports_app, Hfail. cbn [formatted]. fold v.
    cbn [List.filter]. unfold refused at 2. cbn [fst snd].
    destruct (sender_send (oscName p) v); reflexivity.
Qed.

(** A transport failure neither stops the parameter dump nor is it
    retried: whatever the sender answers, the dump returns after one send
    per parameter, and it has printed exactly one failure report for each
    send that the sender refused. *)
Theorem dump_reports_each_refused_send_once w1 :
  exists w2 es,
    run_task to_string_float sender_send SendAllParamsTask w1 = Done w2 /\
    effects w2 = effects w1 ++ es /\
    length (sent es) = length (param_ptr w1) /\
    failure_reports es = length (List.filter (refused sender_send) (sent es)).
Proof.
  unfold run_task.
  destruct (sendAllParams_loop_failures (param_ptr w1) [] EmptyString w1 eq_refl)
    as (w2 & es & Hrun & Hes & Hsent & Hfail).
  exists w2, es. split; [exact Hrun|]. split; [exact Hes|].
  rewrite Hsent. split; [apply formatted_length | exact Hfail].
Qed.

End DispatcherFootprint.

(** * Starting and stopping *)

Section StartStopProofs.

Context {Float32 ParamRef : Type}.
Variable receiver_connect : Z -> bool.
Variable sender_connect : Z -> bool.
Implicit Types (c : @Controller Float32 ParamRef).

Lemma switch_keeps_mirror (s : Switch) c :
  synth_set c = true -> flags_mirrored c ->
  exists c',
    switch receiver_connect sender_connect s c = Returned c' /\
    synth_set c' = true /\ flags_mirrored c'.
Proof.
  intros Hset [Hin Hout]. unfold flags_mirrored.
  destruct s as [port | | port |]; cbn [switch].
  - unfold initOSCIn. rewrite Hset.
    destruct (receiver_connect port); eexists; (split; [reflexivity|]); cbn; auto.
  - unfold stopListening. rewrite Hset.
    destruct (listening c) eqn:Hl; eexists; (split; [reflexivity|]); cbn;
      rewrite ?Hl; auto.
  - unfold initOSCOut. rewrite Hset.
    destruct (sender_connect port); eexists; (split; [reflexivity|]); cbn; auto.
  - unfold stopSending. rewrite Hset.
    destruct (sendingOSC (world c)) eqn:Hs; eexists; (split; [reflexivity|]); cbn;
      rewrite ?Hs; auto.
Qed.

(** However the two directions are started and stopped, and whether or not
    the ports can be connected, every call returns and the flags kept in
    the synthesizer's storage repeat those of the object:
    [oscListenerRunning] is [listening] and [oscSending] is [sendingOSC]. *)
Theorem storage_flags_stay_mirrored (l : list Switch) :
  forall c,
    synth_set c = true -> flags_mirrored c ->
    exists c',
      switches receiver_connect sender_connect l c = Returned c' /\
      synth_set c' = true /\ flags_mirrored c'.
Proof.
  induction l as [| s l IH]; intros c Hset Hmir.
  - exists c. auto.
  - destruct (switch_keeps_mirror s c Hset Hmir) as (c1 & Hsw & Hset1 & Hmir1).
    destruct (IH c1 Hset1 Hmir1) as (c' & Hrun & Hset' & Hmir').
    exists c'. cbn [switches]. rewrite Hsw. auto.
Qed.

End StartStopProofs.

(** * The further properties on concrete inputs *)

Lemma full_ring_inv : ring_inv full_ring.
Proof. unfold ring_inv, midiBufferSz. vm_compute. repeat split; discriminate. Qed.

Lemma push_on_full_ring_discards_unread_witness :
  ring_inv full_ring /\ length (pending full_ring) = 4095%nat /\
  exists st',
    handleIncomingMidiMessage 72%nat full_ring = Done st' /\
    midiRP st' = midiWP st' /\
    pending st' = [] /\
    forall fuel : nat, drain fuel st' = Done st'.
Proof.
  split; [apply full_ring_inv|]. split; [vm_compute; reflexivity|].
  apply (push_on_full_ring_discards_unread full_ring 72%nat);
    [apply full_ring_inv | vm_compute; reflexivity].
Defined.

Lemma ring_is_fifo_while_never_full_witness :
  ring_inv (init 32 0%nat) /\ 0 <= pos (init 32 0%nat) <= 32 /\ (4096 <= 4096)%nat /\
  never_full 32 4096 sample_run (init 32 0%nat) = true /\
  exists st',
    run_ops 32 4096 sample_run (init 32 0%nat) = Done st' /\
    applied (calls st') ++ pending st' =
      applied (calls (init 32 0%nat)) ++ pending (init 32 0%nat) ++ pushed sample_run.
Proof.
  split; [apply init_ring_inv|]. split; [simpl; lia|]. split; [lia|].
  split; [vm_compute; reflexivity|].
  apply (ring_is_fifo_while_never_full 32); try lia.
  - unfold Int32.max_int. lia.
  - apply init_ring_inv.
  - simpl. lia.
  - vm_compute; reflexivity.
Defined.

Example sample_run_applies_in_push_order :
  applied (calls_of (run_ops 32 4096 sample_run (init 32 0%nat))) = [60; 64; 67]%nat.
Proof. vm_compute. reflexivity. Qed.

Lemma three_pending_inv : ring_inv three_pending.
Proof. apply (reachable_ring_inv 32 0%nat). apply three_pending_reachable. Qed.

Lemma callback_writes_consecutive_samples_witness :
  ring_inv three_pending /\ 0 <= pos three_pending <= 32 /\ (4096 <= 4096)%nat /\
  exists st' seg,
    audioDeviceIOCallbackWithContext 32 4096 64 three_pending = Done st' /\
    calls st' = calls three_pending ++ ProcessBlockOSC :: seg /\
    frames_written seg =
      map (fun k : nat => (Z.of_nat k, (pos three_pending + Z.of_nat k) mod 32))
          (seq 0 (Z.to_nat 64)).
Proof.
  split; [apply three_pending_inv|]. split; [simpl; lia|]. split; [lia|].
  apply (callback_writes_consecutive_samples 32); try lia.
  - unfold Int32.max_int. lia.
  - apply three_pending_inv.
  - simpl. lia.
Defined.

Lemma callback_consumes_whole_blocks_witness :
  ring_inv three_pending /\ 0 <= pos three_pending <= 32 /\ (4096 <= 4096)%nat /\
  exists st' seg,
    audioDeviceIOCallbackWithContext 32 4096 48 three_pending = Done st' /\
    calls st' = calls three_pending ++ ProcessBlockOSC :: seg /\
    32 * Z.of_nat (count_calls is_process seg) + pos st'
      = pos three_pending + Z.max 0 48 /\
    (0 < 48 -> 1 <= pos st' <= 32) /\
    (48 <= 0 -> seg = [] /\ pos st' = pos three_pending).
Proof.
  split; [apply three_pending_inv|]. split; [simpl; lia|]. split; [lia|].
  apply (callback_consumes_whole_blocks 32); try lia.
  - unfold Int32.max_int. lia.
  - apply three_pending_inv.
  - simpl. lia.
Defined.

Lemma listed_index_selects_listed_device_witness :
  0 <= 0 < 3 /\ 3 <= Int32.max_int /\ 0 <= 2 <= Int32.max_int /\
  parse_audio_interface (listed_index 0 2) 3 = Some (inr (0, 2)).
Proof.
  assert (H3 : 3 <= Int32.max_int) by (unfold Int32.max_int; lia).
  assert (H2 : 0 <= 2 <= Int32.max_int) by (unfold Int32.max_int; lia).
  split; [lia|]. split; [exact H3|]. split; [exact H2|].
  apply (listed_index_selects_listed_device 0 2 3); [lia | exact H3 | exact H2].
Defined.

Example audio_interface_edge_cases :
  parse_audio_interface "0.2" 3 = Some (inr (0, 2)) /\
  parse_audio_interface " 1.7 (USB)" 3 = Some (inr (1, 7)) /\
  parse_audio_interface "alsa.hw" 3 = Some (inr (0, 0)) /\
  parse_audio_interface "2." 3 = Some (inr (2, 0)) /\
  parse_audio_interface "1.-4" 3 = Some (inr (1, -4)) /\
  parse_audio_interface "2" 3 = Some (inl 3) /\
  parse_audio_interface "3.0" 3 = Some (inl 4) /\
  parse_audio_interface "-1.0" 3 = Some (inl 4) /\
  parse_audio_interface "4294967296.1" 3 = None /\
  parse_audio_interface "0.4294967296" 3 = None.
Proof. repeat split; reflexivity. Qed.

Lemma audio_interface_rejections_witness :
  parse_audio_interface (to_string_int 5) 3 = Some (inl 3) /\
  Int32.min_int <= 5 <= Int32.max_int /\ Int32.min_int <= 0 <= Int32.max_int /\
  (5 < 0 \/ 3 <= 5) /\
  parse_audio_interface (listed_index 5 0) 3 = Some (inl 4).
Proof.
  assert (H5 : Int32.min_int <= 5 <= Int32.max_int)
    by (unfold Int32.min_int, Int32.max_int; lia).
  assert (H0 : Int32.min_int <= 0 <= Int32.max_int)
    by (unfold Int32.min_int, Int32.max_int; lia).
  destruct (audio_interface_rejections 5 0 3) as [Hbare Hrange].
  split; [exact Hbare|]. split; [exact H5|]. split; [exact H0|].
  split; [right; lia|]. apply Hrange; [exact H5 | exact H0 | right; lia].
Defined.

Lemma handler_defers_saves_and_sends_witness :
  sample_received save_MyPatch sample_synth
    = Done (effect (CallAsync (SavePatchTask save_MyPatch)) sample_synth) /\
  exists es,
    effects (effect (CallAsync (SavePatchTask save_MyPatch)) sample_synth)
      = effects sample_synth ++ es /\
    no_direct_io es = true /\
    param_ptr (effect (CallAsync (SavePatchTask save_MyPatch)) sample_synth)
      = param_ptr sample_synth /\
    sendingOSC (effect (CallAsync (SavePatchTask save_MyPatch)) sample_synth)
      = sendingOSC sample_synth.
Proof.
  split; [reflexivity|].
  apply (handler_defers_saves_and_sends 4096 sample_table no_file every_path_relative
           sample_path_div sample_datapath save_MyPatch sample_synth).
  reflexivity.
Defined.

Lemma only_patch_load_writes_pending_request_witness :
  sample_received save_MyPatch sample_synth
    = Done (effect (CallAsync (SavePatchTask save_MyPatch)) sample_synth) /\
  (forall ts, split_on slash (addressPattern save_MyPatch)
              <> EmptyString :: "patch" :: "load" :: ts) /\
  patchid_file (effect (CallAsync (SavePatchTask save_MyPatch)) sample_synth)
    = patchid_file sample_synth /\
  has_patchid_file (effect (CallAsync (SavePatchTask save_MyPatch)) sample_synth)
    = has_patchid_file sample_synth.
Proof.
  assert (Hother : forall ts, split_on slash (addressPattern save_MyPatch)
                              <> EmptyString :: "patch" :: "load" :: ts)
    by (intros ts; discriminate).
  split; [reflexivity|]. split; [exact Hother|].
  apply (only_patch_load_writes_pending_request 4096 sample_table no_file
           every_path_relative sample_path_div sample_datapath save_MyPatch sample_synth);
    [reflexivity | exact Hother].
Defined.

Lemma only_tuning_path_writes_default_paths_witness :
  sample_handled every_path_exists scale_name sample_synth
    = Done (state_after sample_synth
              (sample_handled every_path_exists scale_name sample_synth)) /\
  (forall ts, split_on slash (addressPattern scale_name)
              <> EmptyString :: "tuning" :: "path" :: "scl" :: ts) /\
  (forall ts, split_on slash (addressPattern scale_name)
              <> EmptyString :: "tuning" :: "path" :: "kbm" :: ts) /\
  userDefaultPath (state_after sample_synth
                     (sample_handled every_path_exists scale_name sample_synth))
    = userDefaultPath sample_synth.
Proof.
  assert (Hscl : forall ts, split_on slash (addressPattern scale_name)
                            <> EmptyString :: "tuning" :: "path" :: "scl" :: ts)
    by (intros ts; discriminate).
  assert (Hkbm : forall ts, split_on slash (addressPattern scale_name)
                            <> EmptyString :: "tuning" :: "path" :: "kbm" :: ts)
    by (intros ts; discriminate).
  split; [reflexivity|]. split; [exact Hscl|]. split; [exact Hkbm|].
  apply (only_tuning_path_writes_default_paths 4096 sample_table every_path_exists
           every_path_relative sample_path_div sample_datapath scale_name sample_synth);
    [reflexivity | exact Hscl | exact Hkbm].
Defined.

Lemma unrecognised_first_segment_is_dropped_witness :
  split_on slash (addressPattern unknown_address)
    = EmptyString :: "fx" :: ["a"; "1"; "mix"] /\
  "fx" <> "param" /\ "fx" <> "patch" /\ "fx" <> "tuning" /\
  "fx" <> "send_all_parameters" /\
  sample_received unknown_address sample_synth = Done sample_synth.
Proof.
  split; [reflexivity|]. repeat (split; [discriminate|]).
  apply (unrecognised_first_segment_is_dropped 4096 sample_table no_file
           every_path_relative sample_path_div sample_datapath unknown_address
           sample_synth "fx" ["a"; "1"; "mix"]);
    [reflexivity | discriminate..].
Defined.

Lemma nothing_is_queued_while_sending_is_off_witness :
  split_on slash (addressPattern send_all)
    = EmptyString :: "send_all_parameters" :: [] /\
  sendingOSC silent_synth = false /\
  sample_received send_all silent_synth = Done silent_synth /\
  forall addr msg : string, send addr msg silent_synth = silent_synth.
Proof.
  split; [reflexivity|]. split; [reflexivity|].
  apply (nothing_is_queued_while_sending_is_off 4096 sample_table no_file
           every_path_relative sample_path_div sample_datapath send_all silent_synth []);
    reflexivity.
Defined.

Lemma tuning_path_stores_default_witness :
  split_on slash (addressPattern scale_directory)
    = EmptyString :: "tuning" :: "path" :: kind_token Scale :: [] /\
  (joined_arguments scale_directory = "_reset"
   \/ every_path_exists (joined_arguments scale_directory) = Some true) /\
  exists w',
    sample_handled every_path_exists scale_directory sample_synth = Done w' /\
    effects w' = effects sample_synth /\
    (forall d, getUserDefaultPath w' (kind_key Scale) d
               = path_to_store sample_path_div sample_datapath Scale
                               (joined_arguments scale_directory)) /\
    (forall d, getUserDefaultPath w' (other_key Scale) d
               = getUserDefaultPath sample_synth (other_key Scale) d) /\
    patchid_file w' = patchid_file sample_synth /\
    has_patchid_file w' = has_patchid_file sample_synth.
Proof.
  split; [reflexivity|]. split; [right; reflexivity|].
  apply (tuning_path_stores_default 4096 sample_table every_path_exists
           every_path_relative sample_path_div sample_datapath Scale scale_directory
           sample_synth []);
    [reflexivity | right; reflexivity].
Defined.

Lemma tuning_name_resolves_against_stored_default_witness :
  split_on slash (addressPattern scale_directory)
    = EmptyString :: "tuning" :: "path" :: kind_token Scale :: [] /\
  joined_arguments scale_directory <> "_reset" /\
  every_path_exists (joined_arguments scale_directory) = Some true /\
  split_on slash (addressPattern scale_name)
    = EmptyString :: "tuning" :: kind_token Scale :: [] /\
  exists w1 w2,
    sample_handled every_path_exists scale_directory sample_synth = Done w1 /\
    sample_handled every_path_exists scale_name w1 = Done w2 /\
    effects w2 =
      effects sample_synth
      ++ [kind_load Scale
            (if every_path_relative (joined_arguments scale_name)
             then sample_path_div (joined_arguments scale_directory)
                                  (joined_arguments scale_name)
                  +:+ kind_extension Scale
             else joined_arguments scale_name +:+ kind_extension Scale)].
Proof.
  split; [reflexivity|]. split; [discriminate|]. split; [reflexivity|].
  split; [reflexivity|].
  apply (tuning_name_resolves_against_stored_default 4096 sample_table every_path_exists
           every_path_relative sample_path_div sample_datapath Scale scale_directory
           scale_name sample_synth [] []);
    [reflexivity | discriminate | reflexivity | reflexivity].
Defined.

Example scale_is_loaded_from_stored_directory :
  effects (state_after sample_synth
             (do w1 <- sample_handled every_path_exists scale_directory sample_synth;
              sample_handled every_path_exists scale_name w1))
  = [LoadTuningFromSCL "/home/me/scales/bohlen-pierce.scl"].
Proof. vm_compute. reflexivity. Qed.

Lemma storage_flags_stay_mirrored_witness :
  synth_set fresh_controller = true /\ flags_mirrored fresh_controller /\
  exists c',
    switches unprivileged unprivileged sample_switches fresh_controller = Returned c' /\
    synth_set c' = true /\ flags_mirrored c'.
Proof.
  split; [reflexivity|]. split; [split; reflexivity|].
  apply (storage_flags_stay_mirrored unprivileged unprivileged sample_switches
           fresh_controller); [reflexivity | split; reflexivity].
Defined.
